(** * Down Memory Lane Slack bot: a shallow embedding of [slack_bot.py]

    The development follows the source file top to bottom:
    - [PyStr]: Python [str] values and the string methods the bot uses
      ([lower], [split], [join], [strip]);
    - [Sre]: the backtracking regular-expression matcher behind [re.search]
      and [re.sub], for the fragment of pattern syntax the bot's two
      patterns can reach;
    - [Bot]: [enhance_prompt], [generate_image], [process_image_request],
      [extract_prompt_from_message] and the [slack_events] view, with the
      Slack and Replicate calls taken from an environment record and every
      external call logged in a trace;
    - [Spec]: the properties of the specification, in its own terms.

    A Python [str] is modelled as a Rocq [string] whose characters are the
    code points below 256; the character classes are Python's on that
    range.  [print] calls are left out. *)

From Stdlib Require Import ZArith NArith Ascii String List Lia Bool.
From stdpp Require Import base gmap sets list strings pretty.

Set Warnings "-clear-no-such-hyp".

Local Open Scope string_scope.
Local Open Scope list_scope.

(** ** Python strings *)

Module PyStr.

(** [str.isspace] on one character, which is also what [\s] matches and
    what [split()] and [strip()] cut at: TAB..CR, FS..US, SPACE, NEL and
    NBSP. *)
Definition isspace (c : ascii) : bool :=
  let n := N_of_ascii c in
  (((9 <=? n) && (n <=? 13)) || ((28 <=? n) && (n <=? 32))
   || (n =? 133) || (n =? 160))%N.

(** [\d]: the decimal digits. *)
Definition isdigit (c : ascii) : bool :=
  let n := N_of_ascii c in ((48 <=? n) && (n <=? 57))%N.

(** [str.lower] on one character: A..Z and the accented capitals
    U+00C0..U+00DE (the multiplication sign U+00D7 apart) move up by 32. *)
Definition lower_char (c : ascii) : ascii :=
  let n := N_of_ascii c in
  if (((65 <=? n) && (n <=? 90))
      || ((192 <=? n) && (n <=? 222) && negb (n =? 215)))%N
  then ascii_of_N (n + 32) else c.

Fixpoint lower (s : string) : string :=
  match s with
  | EmptyString => EmptyString
  | String c s' => String (lower_char c) (lower s')
  end.

(** [s.split()] with no separator: [w] is the word being read. *)
Fixpoint split_from (w : string) (s : string) : list string :=
  match s with
  | EmptyString => if String.eqb w "" then [] else [w]
  | String c s' =>
      if isspace c
      then if String.eqb w "" then split_from "" s'
           else w :: split_from "" s'
      else split_from (w +:+ String c "") s'
  end.

Definition split (s : string) : list string := split_from "" s.

(** [sep.join(words)]. *)
Fixpoint join (sep : string) (ws : list string) : string :=
  match ws with
  | [] => ""
  | [w] => w
  | w :: ws' => w +:+ sep +:+ join sep ws'
  end.

Fixpoint lstrip (s : string) : string :=
  match s with
  | EmptyString => EmptyString
  | String c s' => if isspace c then lstrip s' else s
  end.

(** [rstrip] keeps a character when it is not white space or when
    something is left after it. *)
Fixpoint rstrip (s : string) : string :=
  match s with
  | EmptyString => EmptyString
  | String c s' =>
      match rstrip s' with
      | EmptyString => if isspace c then EmptyString else String c ""
      | r => String c r
      end
  end.

Definition strip (s : string) : string := rstrip (lstrip s).

(** [s[:n]]. *)
Fixpoint slice_to (n : nat) (s : string) : string :=
  match n, s with
  | S k, String c s' => String c (slice_to k s')
  | _, _ => EmptyString
  end.

(** [needle in s] and [s.startswith(p)], for statements about the text. *)
Fixpoint startswith (p s : string) : bool :=
  match p, s with
  | EmptyString, _ => true
  | String a p', String b s' => Ascii.eqb a b && startswith p' s'
  | String _ _, EmptyString => false
  end.

Fixpoint contains (needle s : string) : bool :=
  startswith needle s
  || match s with
     | EmptyString => false
     | String _ s' => contains needle s'
     end.

End PyStr.

(** ** The regular-expression matcher

  [re] compiles a pattern to a sequence of opcodes and runs a backtracking
  matcher over it.  The bot uses two patterns: the constant
  [(\d+)[-\s]?year[-\s]?old] and the run-time pattern ['<@' + id + '>'].
  Both stay inside sequences of single-character items, each with an
  optional greedy [?], [*] or [+], and capture marks. *)

Module Sre.

Inductive set_item : Type :=
| ItemLiteral (c : ascii)
| ItemDigit
| ItemSpace.

Inductive charset : Type :=
| Literal (c : ascii)
| AnyChar
| In (items : list set_item).

Inductive op : Type :=
| Single (cs : charset)
| MaxRepeat (lo : nat) (hi : option nat) (cs : charset)
| Mark (n : nat).

Definition item_match (i : set_item) (c : ascii) : bool :=
  match i with
  | ItemLiteral a => Ascii.eqb a c
  | ItemDigit => PyStr.isdigit c
  | ItemSpace => PyStr.isspace c
  end.

(** [.] matches everything but a newline (no DOTALL flag is given). *)
Definition charset_match (cs : charset) (c : ascii) : bool :=
  match cs with
  | Literal a => Ascii.eqb a c
  | AnyChar => negb (Ascii.eqb c "010")
  | In items => existsb (fun i => item_match i c) items
  end.

(** A mark remembers the subject from the marked position on. *)
Definition marks : Type := list (nat * string).

Fixpoint get_mark (n : nat) (mk : marks) : option string :=
  match mk with
  | [] => None
  | (k, s) :: mk' => if Nat.eqb k n then Some s else get_mark n mk'
  end.

Definition hi_allows (hi : option nat) : bool :=
  match hi with
  | Some 0 => false
  | _ => true
  end.

Definition hi_pred (hi : option nat) : option nat :=
  match hi with
  | Some n => Some (Nat.pred n)
  | None => None
  end.

(** A greedy repeat of one character class: take as many characters as
    allowed, then give them back one at a time while the rest of the
    pattern, [k], fails. *)
Fixpoint repeat_one {R : Type} (cs : charset) (lo : nat) (hi : option nat)
    (s : string) (k : string -> option R) : option R :=
  let stop := if Nat.eqb lo 0 then k s else None in
  match s with
  | EmptyString => stop
  | String c s' =>
      if charset_match cs c && hi_allows hi
      then match repeat_one cs (Nat.pred lo) (hi_pred hi) s' k with
           | Some r => Some r
           | None => stop
           end
      else stop
  end.

(** [sre_match pc must_advance start mk s]: run the opcodes [pc] on the rest
    [s] of the subject; the attempt began at [start].  At the end of the
    pattern an empty match is refused when [must_advance] is set. *)
Fixpoint sre_match (pc : list op) (must_advance : bool) (start : string)
    (mk : marks) (s : string) : option (marks * string) :=
  match pc with
  | [] =>
      if must_advance && Nat.eqb (String.length s) (String.length start)
      then None else Some (mk, s)
  | Single cs :: pc' =>
      match s with
      | String c s' =>
          if charset_match cs c
          then sre_match pc' must_advance start mk s' else None
      | EmptyString => None
      end
  | MaxRepeat lo hi cs :: pc' =>
      repeat_one cs lo hi s (sre_match pc' must_advance start mk)
  | Mark n :: pc' =>
      sre_match pc' must_advance start ((n, s) :: mk) s
  end.

Definition match_at (pc : list op) (must_advance : bool) (s : string)
  : option (marks * string) :=
  sre_match pc must_advance s [] s.

(** A match object: the marks and the text after the match. *)
Record match_obj : Type := MatchObj { m_marks : marks; m_rest : string }.

(** [re.search]: the first position, from the left, where the pattern
    matches. *)
Fixpoint search (pc : list op) (s : string) : option match_obj :=
  match match_at pc false s with
  | Some (mk, rest) => Some (MatchObj mk rest)
  | None =>
      match s with
      | EmptyString => None
      | String _ s' => search pc s'
      end
  end.

(** [m.group(g)]: the text between marks [2g-2] and [2g-1]. *)
Definition group (m : match_obj) (g : nat) : option string :=
  match get_mark (2 * g - 2) (m_marks m), get_mark (2 * g - 1) (m_marks m) with
  | Some from, Some to =>
      Some (PyStr.slice_to (String.length from - String.length to) from)
  | _, _ => None
  end.

Definition match_len (pc : list op) (must_advance : bool) (s : string)
  : option nat :=
  match match_at pc must_advance s with
  | Some (_, rest) => Some (String.length s - String.length rest)
  | None => None
  end.

(** [re.sub(pattern, '', s)]: walk the subject from the left; [skip] counts
    the characters of the current match still to drop.  After an empty
    match the same position is tried once more for a match that advances. *)
Fixpoint sub_empty_from (pc : list op) (skip : nat) (s : string) : string :=
  match s with
  | EmptyString => EmptyString
  | String c s' =>
      match skip with
      | S k => sub_empty_from pc k s'
      | O =>
          match match_len pc false s with
          | Some (S n) => sub_empty_from pc n s'
          | Some O =>
              match match_len pc true s with
              | Some (S n) => sub_empty_from pc n s'
              | _ => String c (sub_empty_from pc 0 s')
              end
          | None => String c (sub_empty_from pc 0 s')
          end
      end
  end.

Definition sub_empty (pc : list op) (s : string) : string :=
  sub_empty_from pc 0 s.

(** *** Compiling a pattern

    The characters with a meaning of their own in a pattern. *)
Definition special (c : ascii) : bool :=
  existsb (Ascii.eqb c)
    (list_ascii_of_string ".^$*+?{}[]\|()").

Definition quantifier (c : ascii) : option (nat * option nat) :=
  if Ascii.eqb c "?" then Some (0, Some 1)
  else if Ascii.eqb c "*" then Some (0, None)
  else if Ascii.eqb c "+" then Some (1, None)
  else None.

Definition atom (c : ascii) : option charset :=
  if Ascii.eqb c "." then Some AnyChar
  else if special c then None
  else Some (Literal c).

(** Can a quantifier be followed by [p]?  A second quantifier character
    would make it lazy or possessive, or be an error. *)
Definition quantifier_ends (p : string) : bool :=
  match p with
  | String c _ =>
      negb (existsb (Ascii.eqb c) (list_ascii_of_string "?*+{"))
  | EmptyString => true
  end.

(** [compile p]: the opcodes of [p], or [None] when [p] uses syntax
    outside the fragment: anchors, classes, groups, alternation, escapes,
    counted, lazy or possessive repeats. *)
Fixpoint compile (p : string) : option (list op) :=
  match p with
  | EmptyString => Some []
  | String c p' =>
      match atom c with
      | None => None
      | Some cs =>
          match p' with
          | String q p'' =>
              match quantifier q with
              | Some (lo, hi) =>
                  if quantifier_ends p''
                  then option_map (cons (MaxRepeat lo hi cs)) (compile p'')
                  else None
              | None => option_map (cons (Single cs)) (compile p')
              end
          | EmptyString => Some [Single cs]
          end
      end
  end.

End Sre.

(** ** The bot *)

Module Bot.
Import PyStr Sre.

(** *** Values that cross the program's boundary *)

(** A parsed JSON body ([request.json]).  [JObj] holds the [dict] the
    parser built, one entry per key; numbers are the integers. *)
#[warnings="-register-all"] Inductive json : Type :=
| JNull
| JBool (b : bool)
| JNum (n : Z)
| JStr (s : string)
| JArr (items : list json)
| JObj (fields : list (string * json)).

Fixpoint lookup_field (k : string) (fields : list (string * json))
  : option json :=
  match fields with
  | [] => None
  | (k', v) :: fields' =>
      if String.eqb k k' then Some v else lookup_field k fields'
  end.

(** [d.get(k)] and [d.get(k, dflt)] on a dict. *)
Definition get (fields : list (string * json)) (k : string) : json :=
  default JNull (lookup_field k fields).

Definition get_or (fields : list (string * json)) (k : string) (dflt : json)
  : json :=
  default dflt (lookup_field k fields).

(** [v == "literal"]. *)
Definition eq_str (v : json) (s : string) : bool :=
  match v with
  | JStr s' => String.eqb s' s
  | _ => false
  end.

(** Truth value of an object, and [a or b]. *)
Definition truthy (v : json) : bool :=
  match v with
  | JNull => false
  | JBool b => b
  | JNum n => negb (Z.eqb n 0)
  | JStr s => negb (String.eqb s "")
  | JArr items => match items with [] => false | _ => true end
  | JObj fields => match fields with [] => false | _ => true end
  end.

Definition py_or (a b : json) : json := if truthy a then a else b.

(** Exceptions, all of them instances of [Exception]: the class, as far as
    an [except] clause of the bot or the view tells classes apart, and what
    [str(e)] gives. *)
Inductive exc_class : Type :=
| SlackApiError
| AttributeError
| TypeError
| OtherException.

Record pyexc : Type := PyExc { exc_kind : exc_class; exc_str : string }.

Definition is_slack_api_error (e : pyexc) : bool :=
  match exc_kind e with
  | SlackApiError => true
  | _ => false
  end.

(** What [replicate.run] returns.  [PObj url str_] is any object that is
    not a [str] or, at top level, a [list]: [url] is its [url] attribute
    when it has one, [str_] is what [str()] makes of it. *)
Inductive pyval : Type :=
| PStr (s : string)
| PObj (url : option string) (str_ : string).

Inductive output : Type :=
| OutList (items : list pyval)
| OutOne (v : pyval).

(** The three texts the bot posts. *)
Inductive bot_text : Type :=
| TextCreating                          (* "Creating your childhood memory... " *)
| TextFailure (description : string)    (* "Sorry, I couldn't generate that image. Error: {description}" *)
| TextUsage.                            (* "Hi! Please describe the childhood photo ..." *)

Record input_params : Type := InputParams {
  ip_prompt : string;
  ip_num_outputs : Z;
  ip_aspect_ratio : string;
  ip_output_format : string;
  ip_guidance_scale_tenths : Z;
  ip_num_inference_steps : Z;
  ip_hf_lora : option string
}.

(** *** Configuration, read from the environment at start-up *)

Record config : Type := Config {
  REPLICATE_MODEL : string;
  LORA_WEIGHTS_URL : option string;
  TRIGGER_WORD : string
}.

(** *** The outside world

    Each external call answers as the environment says: [None] or [inr]
    is a normal return, [Some e] or [inl e] the exception raised.
    [response_error e] is what [e.response['error']] gives for a
    [SlackApiError] [e]: the text, or the exception that looking it up
    raises (a response without data, or without that key). *)
Record env : Type := Env {
  auth_test : pyexc + string;
  chat_postMessage : json -> json -> bot_text -> option pyexc;
  files_upload_v2 : json -> json -> list Byte.byte -> string -> option pyexc;
  replicate_run : string -> input_params -> pyexc + output;
  requests_get : string -> pyexc + list Byte.byte;
  response_error : pyexc -> pyexc + string
}.

(** Every external call, and every thread started, goes into a trace. *)
Inductive effect : Type :=
| CallAuthTest
| CallPostMessage (channel thread_ts : json) (text : bot_text)
| CallFilesUpload (channel thread_ts : json) (file : list Byte.byte)
    (prompt : string)
| CallReplicate (model : string) (input : input_params)
| CallGet (url : string)
| ThreadStart (channel thread_ts : json) (user_prompt : string).

(** *** A trace-and-exception monad *)

Definition io (A : Type) : Type := list effect * (pyexc + A).

Definition ret {A : Type} (a : A) : io A := ([], inr a).
Definition raise {A : Type} (e : pyexc) : io A := ([], inl e).
Definition emit (f : effect) : io unit := ([f], inr tt).

Definition bind {A B : Type} (m : io A) (k : A -> io B) : io B :=
  match m with
  | (t, inl e) => (t, inl e)
  | (t, inr a) => let (t', r) := k a in (t ++ t', r)
  end.

(** [try: m except Exception as e: h e]. *)
Definition try_except {A : Type} (m : io A) (h : pyexc -> io A) : io A :=
  match m with
  | (t, inl e) => let (t', r) := h e in (t ++ t', r)
  | (t, inr a) => (t, inr a)
  end.

Definition lift {A : Type} (r : pyexc + A) : io A := ([], r).

Notation "x <- m ;; k" := (bind m (fun x => k))
  (at level 100, m at next level, right associativity).
Notation "m ;;; k" := (bind m (fun _ => k))
  (at level 100, right associativity).

(** *** enhance_prompt *)

(** [(\d+)[-\s]?year[-\s]?old], compiled. *)
Definition age_pattern : list op :=
  [ Mark 0; MaxRepeat 1 None (In [ItemDigit]); Mark 1;
    MaxRepeat 0 (Some 1) (In [ItemLiteral "-"; ItemSpace]);
    Single (Literal "y"); Single (Literal "e");
    Single (Literal "a"); Single (Literal "r");
    MaxRepeat 0 (Some 1) (In [ItemLiteral "-"; ItemSpace]);
    Single (Literal "o"); Single (Literal "l"); Single (Literal "d") ].

(** The local [age] of [enhance_prompt]. *)
Definition age (user_prompt : string) : string :=
  match search age_pattern (lower user_prompt) with
  | Some age_match => default "5" (group age_match 1)
  | None => "5"
  end.

Definition enhance_prompt (cfg : config) (user_prompt : string) : string :=
  "A vintage photograph of " +:+ TRIGGER_WORD cfg +:+ " as a "
    +:+ age user_prompt +:+ "-year-old child, " +:+ user_prompt
    +:+ ", realistic childhood photo, natural lighting, candid moment, high quality".

(** *** generate_image *)

Definition unexpected_output (shown : string) : pyexc :=
  PyExc OtherException ("Unexpected output format: " +:+ shown).

(** The end of [generate_image]: one URL out of whatever came back.  The
    final [raise] is reached by the empty list, shown as [[]], and by a
    single object that is neither url-bearing nor a [str]. *)
Definition output_url (out : output) : pyexc + string :=
  match out with
  | OutList (first_output :: _) =>
      match first_output with
      | PObj (Some url) _ => inr url
      | PStr s => inr s
      | PObj None str_ => inr str_
      end
  | OutList [] => inl (unexpected_output "[]")
  | OutOne (PObj (Some url) _) => inr url
  | OutOne (PStr s) => inr s
  | OutOne (PObj None str_) => inl (unexpected_output str_)
  end.

Definition build_input (cfg : config) (enhanced_prompt : string)
  : input_params :=
  {| ip_prompt := enhanced_prompt;
     ip_num_outputs := 1;
     ip_aspect_ratio := "1:1";
     ip_output_format := "webp";
     ip_guidance_scale_tenths := 35;
     ip_num_inference_steps := 28;
     ip_hf_lora :=
       match LORA_WEIGHTS_URL cfg with
       | Some url => if String.eqb url "" then None else Some url
       | None => None
       end |}.

Definition generate_image (cfg : config) (E : env) (prompt : string)
  : io string :=
  let input := build_input cfg (enhance_prompt cfg prompt) in
  emit (CallReplicate (REPLICATE_MODEL cfg) input) ;;;
  out <- lift (replicate_run E (REPLICATE_MODEL cfg) input) ;;
  lift (output_url out).

(** *** download_image, send_slack_message, upload_image_to_slack *)

Definition download_image (E : env) (url : string) : io (list Byte.byte) :=
  emit (CallGet url) ;;; lift (requests_get E url).

(** The start of both [except SlackApiError as e] clauses:
    [print(f"...{e.response['error']}")].  When the look-up raises, that
    exception leaves the clause; otherwise the clause goes on with [k]. *)
Definition print_response_error {A : Type} (E : env) (e : pyexc) (k : io A)
  : io A :=
  match response_error E e with
  | inr _ => k
  | inl e' => raise e'
  end.

(** A [SlackApiError] is printed and dropped; anything else goes up. *)
Definition send_slack_message (E : env) (channel thread_ts : json)
    (text : bot_text) : io unit :=
  emit (CallPostMessage channel thread_ts text) ;;;
  match chat_postMessage E channel thread_ts text with
  | None => ret tt
  | Some e =>
      if is_slack_api_error e
      then print_response_error E e (ret tt)
      else raise e
  end.

(** A [SlackApiError] is printed and raised again. *)
Definition upload_image_to_slack (E : env) (channel thread_ts : json)
    (image_bytes : list Byte.byte) (prompt : string) : io unit :=
  emit (CallFilesUpload channel thread_ts image_bytes prompt) ;;;
  match files_upload_v2 E channel thread_ts image_bytes prompt with
  | None => ret tt
  | Some e =>
      if is_slack_api_error e
      then print_response_error E e (raise e)
      else raise e
  end.

(** *** process_image_request *)

(** The [try] block. *)
Definition process_steps (cfg : config) (E : env) (channel thread_ts : json)
    (user_prompt : string) : io unit :=
  send_slack_message E channel thread_ts TextCreating ;;;
  image_url <- generate_image cfg E user_prompt ;;
  image_bytes <- download_image E image_url ;;
  upload_image_to_slack E channel thread_ts image_bytes user_prompt.

Definition process_image_request (cfg : config) (E : env)
    (channel thread_ts : json) (user_prompt : string) : io unit :=
  try_except (process_steps cfg E channel thread_ts user_prompt)
    (fun e => send_slack_message E channel thread_ts
                (TextFailure (exc_str e))).

(** *** extract_prompt_from_message *)

(** [None] when the pattern built from [bot_user_id] leaves the compiled
    fragment. *)
Definition extract_prompt_from_message (text bot_user_id : string)
  : option string :=
  match compile ("<@" +:+ bot_user_id +:+ ">") with
  | Some pc => Some (strip (join " " (split (sub_empty pc text))))
  | None => None
  end.

(** *** processed_events *)

(** What can be a member of a Python set among JSON values: [None], a
    number (with [True] and [False] equal to 1 and 0) or a string. *)
Inductive pykey : Type :=
| KNone
| KInt (n : Z)
| KStr (s : string).

#[global] Instance pykey_eq_dec : EqDecision pykey.
Proof. solve_decision. Defined.

#[global] Instance pykey_countable : Countable pykey.
Proof.
  refine (inj_countable'
    (fun k => match k with
              | KNone => inl tt
              | KInt n => inr (inl n)
              | KStr s => inr (inr s)
              end)
    (fun x => match x with
              | inl _ => KNone
              | inr (inl n) => KInt n
              | inr (inr s) => KStr s
              end) _).
  intros k; destruct k; reflexivity.
Defined.

Definition hashable (v : json) : option pykey :=
  match v with
  | JNull => Some KNone
  | JBool b => Some (KInt (if b then 1 else 0))
  | JNum n => Some (KInt n)
  | JStr s => Some (KStr s)
  | JArr _ | JObj _ => None
  end.

(** [processed_events.add(event_id)]. *)
Definition add_event (event_id : pykey) (processed_events : gset pykey)
  : gset pykey :=
  {[ event_id ]} ∪ processed_events.

(** [if len(processed_events) > 1000: processed_events.clear()]. *)
Definition cleanup (processed_events : gset pykey) : gset pykey :=
  if decide (1000 < size processed_events) then ∅ else processed_events.

(** Lines 211-215 together. *)
Definition mark (event_id : pykey) (processed_events : gset pykey)
  : gset pykey :=
  cleanup (add_event event_id processed_events).

Definition seen (event_id : pykey) (processed_events : gset pykey) : bool :=
  bool_decide (event_id ∈ processed_events).

(** *** slack_events *)

(** How a request ends: a 200 response with a JSON body, an exception that
    leaves the view function (a 500 response), or a mention pattern the
    matcher model does not cover. *)
Inductive result : Type :=
| Responded (body : json)
| Raised (e : pyexc)
| Unmodelled.

Record outcome : Type := Outcome {
  o_result : result;
  o_processed_events : gset pykey;
  o_trace : list effect
}.

Definition http_status (r : result) : option Z :=
  match r with
  | Responded _ => Some 200%Z
  | Raised _ => Some 500%Z
  | Unmodelled => None
  end.

Definition status_ok : json := JObj [("status", JStr "ok")].

Definition no_attribute_get : pyexc :=
  PyExc AttributeError "object has no attribute 'get'".
Definition unhashable : pyexc := PyExc TypeError "unhashable type".
Definition expected_string : pyexc :=
  PyExc TypeError "expected string or bytes-like object".

Definition finish (processed_events : gset pykey) (m : io json) : outcome :=
  match m with
  | (t, inr body) => Outcome (Responded body) processed_events t
  | (t, inl e) => Outcome (Raised e) processed_events t
  end.

(** Lines 226-231: the bot's own id, or the empty string when asking for
    it fails in any way. *)
Definition resolve_bot_user_id (E : env) : string :=
  match auth_test E with
  | inr user_id => user_id
  | inl _ => ""
  end.

(** Lines 218-256: the event, once it is known to be new. *)
Definition handle_event (E : env) (event : json)
    (processed_events : gset pykey) : outcome :=
  match event with
  | JObj ev =>
      if eq_str (get ev "type") "app_mention" then
        let channel := get ev "channel" in
        let thread_ts := py_or (get ev "thread_ts") (get ev "ts") in
        let text := get_or ev "text" (JStr "") in
        let bot_user_id := resolve_bot_user_id E in
        match text with
        | JStr text =>
            match extract_prompt_from_message text bot_user_id with
            | None => Outcome Unmodelled processed_events [CallAuthTest]
            | Some user_prompt =>
                if String.eqb user_prompt "" then
                  finish processed_events
                    (emit CallAuthTest ;;;
                     send_slack_message E channel thread_ts TextUsage ;;;
                     ret status_ok)
                else
                  finish processed_events
                    (emit CallAuthTest ;;;
                     emit (ThreadStart channel thread_ts user_prompt) ;;;
                     ret status_ok)
            end
        | _ =>
            (* [re.sub] compiles the pattern before it looks at the text *)
            match compile ("<@" +:+ bot_user_id +:+ ">") with
            | Some _ => Outcome (Raised expected_string) processed_events
                          [CallAuthTest]
            | None => Outcome Unmodelled processed_events [CallAuthTest]
            end
        end
      else Outcome (Responded status_ok) processed_events []
  | _ => Outcome (Raised no_attribute_get) processed_events []
  end.

Definition slack_events (E : env) (data : json)
    (processed_events : gset pykey) : outcome :=
  match data with
  | JObj top =>
      if eq_str (get top "type") "url_verification" then
        Outcome (Responded (JObj [("challenge", get top "challenge")]))
          processed_events []
      else if eq_str (get top "type") "event_callback" then
        let event := get_or top "event" (JObj []) in
        let event_id := get top "event_id" in
        match hashable event_id with
        | None => Outcome (Raised unhashable) processed_events []
        | Some key =>
            if seen key processed_events
            then Outcome (Responded status_ok) processed_events []
            else handle_event E event (mark key processed_events)
        end
      else Outcome (Responded status_ok) processed_events []
  | _ => Outcome (Raised no_attribute_get) processed_events []
  end.

(** Requests one after another, each on the set the one before left. *)
Fixpoint serve (E : env) (requests : list json)
    (processed_events : gset pykey) : list outcome :=
  match requests with
  | [] => []
  | data :: requests' =>
      let o := slack_events E data processed_events in
      o :: serve E requests' (o_processed_events o)
  end.

End Bot.

(** ** What the specification says, in its own terms *)

Module Spec.
Import PyStr Sre Bot.

(** The four shapes of a generation result the specification lists, each
    with the URL it stands for. *)
Inductive recognized : output -> string -> Prop :=
| list_of_objects url str_ rest :
    recognized (OutList (PObj (Some url) str_ :: rest)) url
| list_of_strings s rest :
    recognized (OutList (PStr s :: rest)) s
| single_object url str_ :
    recognized (OutOne (PObj (Some url) str_)) url
| single_string s :
    recognized (OutOne (PStr s)) s.

(** Event ids marked one after another, the first of the list first. *)
Definition mark_all (ids : list pykey) (processed_events : gset pykey)
  : gset pykey :=
  foldl (fun acc event_id => mark event_id acc) processed_events ids.

(** A thousand and one event ids, all different, and one more. *)
Definition sample_id (n : nat) : pykey := KStr ("Ev" +:+ pretty n).
Definition sample_ids : list pykey := sample_id <$> seq 0 1001.
Definition one_more_id : pykey := KStr "Ev-next".

(** An environment in which every call succeeds: the bot is [U123], the
    model returns one file object, the download a few bytes. *)
Definition calm_env : env :=
  {| auth_test := inr "U123";
     chat_postMessage := fun _ _ _ => None;
     files_upload_v2 := fun _ _ _ _ => None;
     replicate_run := fun _ _ =>
       inr (OutList [PObj (Some "https://replicate.delivery/out-0.webp")
                       "https://replicate.delivery/out-0.webp"]);
     requests_get := fun _ => inr [Byte.x52; Byte.x49; Byte.x46; Byte.x46];
     response_error := fun e => inr (exc_str e) |}.

Definition sample_config : config :=
  {| REPLICATE_MODEL := "lucataco/flux-dev-lora";
     LORA_WEIGHTS_URL := None;
     TRIGGER_WORD := "VISHYFACE" |}.

(** An environment whose model call fails. *)
Definition failing_env : env :=
  {| auth_test := auth_test calm_env;
     chat_postMessage := chat_postMessage calm_env;
     files_upload_v2 := files_upload_v2 calm_env;
     replicate_run := fun _ _ =>
       inl (PyExc OtherException "ReplicateError: model not found");
     requests_get := requests_get calm_env;
     response_error := response_error calm_env |}.

(** An environment whose model call fails and in which the failure text
    cannot be posted. *)
Definition mute_env : env :=
  {| auth_test := auth_test calm_env;
     chat_postMessage := fun _ _ text =>
       match text with
       | TextFailure _ =>
           Some (PyExc OtherException "URLError: connection refused")
       | _ => None
       end;
     files_upload_v2 := files_upload_v2 calm_env;
     replicate_run := fun _ _ =>
       inl (PyExc OtherException "ReplicateError: model not found");
     requests_get := requests_get calm_env;
     response_error := response_error calm_env |}.

(** An environment in which posting to Slack fails with an error that is
    not a [SlackApiError]. *)
Definition offline_env : env :=
  {| auth_test := auth_test calm_env;
     chat_postMessage := fun _ _ _ =>
       Some (PyExc OtherException "URLError: connection refused");
     files_upload_v2 := files_upload_v2 calm_env;
     replicate_run := replicate_run calm_env;
     requests_get := requests_get calm_env;
     response_error := response_error calm_env |}.

(** An environment in which posting to Slack raises a [SlackApiError] whose
    response has no data to look [error] up in. *)
Definition no_data_env : env :=
  {| auth_test := auth_test calm_env;
     chat_postMessage := fun _ _ _ => Some (PyExc SlackApiError "no response");
     files_upload_v2 := files_upload_v2 calm_env;
     replicate_run := replicate_run calm_env;
     requests_get := requests_get calm_env;
     response_error := fun _ =>
       inl (PyExc OtherException
              "As the response.data is empty, this operation is unsupported") |}.

(** An environment in which [auth.test] fails. *)
Definition no_auth_env : env :=
  {| auth_test := inl (PyExc SlackApiError "invalid_auth");
     chat_postMessage := chat_postMessage calm_env;
     files_upload_v2 := files_upload_v2 calm_env;
     replicate_run := replicate_run calm_env;
     requests_get := requests_get calm_env;
     response_error := response_error calm_env |}.

(** Three request bodies: a mention with a prompt, a mention with nothing
    but the mention, and an event callback without an [event_id]. *)
Definition replayed_event : list (string * json) :=
  [("type", JStr "app_mention");
   ("text", JStr "<@U123> 3 year old at the beach");
   ("channel", JStr "C1"); ("ts", JStr "T1")].

Definition replayed_body : list (string * json) :=
  [("type", JStr "event_callback"); ("event_id", JStr "E1");
   ("event", JObj replayed_event)].

Definition mention_only_event : list (string * json) :=
  [("type", JStr "app_mention"); ("text", JStr "<@U123>");
   ("channel", JStr "C1"); ("ts", JStr "T1")].

Definition mention_only_body : list (string * json) :=
  [("type", JStr "event_callback"); ("event_id", JStr "E2");
   ("event", JObj mention_only_event)].

Definition no_id_body : list (string * json) :=
  [("type", JStr "event_callback");
   ("event", JObj [("type", JStr "message"); ("channel", JStr "C1")])].

(** The traces and the last set of a run of requests. *)
Definition traces (os : list outcome) : list effect :=
  concat (map o_trace os).

Definition last_set (os : list outcome) (processed_events : gset pykey)
  : gset pykey :=
  foldl (fun _ o => o_processed_events o) processed_events os.

(** The posts of the failure text in a trace. *)
Definition is_failure_post (f : effect) : bool :=
  match f with
  | CallPostMessage _ _ (TextFailure _) => true
  | _ => false
  end.

Definition is_thread_start (f : effect) : bool :=
  match f with
  | ThreadStart _ _ _ => true
  | _ => false
  end.

(** [send_slack_message] comes back: the call returned, or it raised a
    [SlackApiError] whose response error could be printed. *)
Definition post_returns (E : env) (channel thread_ts : json) (text : bot_text)
  : bool :=
  match chat_postMessage E channel thread_ts text with
  | None => true
  | Some e =>
      is_slack_api_error e
      && match response_error E e with inr _ => true | inl _ => false end
  end.

(** The stage at which a dispatched unit fails, and the exception. *)
Inductive fails_at (cfg : config) (E : env) (channel thread_ts : json)
    (user_prompt : string) : pyexc -> Prop :=
| fails_in_generation e :
    replicate_run E (REPLICATE_MODEL cfg)
      (build_input cfg (enhance_prompt cfg user_prompt)) = inl e ->
    fails_at cfg E channel thread_ts user_prompt e
| fails_in_normalization out e :
    replicate_run E (REPLICATE_MODEL cfg)
      (build_input cfg (enhance_prompt cfg user_prompt)) = inr out ->
    output_url out = inl e ->
    fails_at cfg E channel thread_ts user_prompt e
| fails_in_download out url e :
    replicate_run E (REPLICATE_MODEL cfg)
      (build_input cfg (enhance_prompt cfg user_prompt)) = inr out ->
    output_url out = inr url ->
    requests_get E url = inl e ->
    fails_at cfg E channel thread_ts user_prompt e
| fails_in_upload out url image_bytes e :
    replicate_run E (REPLICATE_MODEL cfg)
      (build_input cfg (enhance_prompt cfg user_prompt)) = inr out ->
    output_url out = inr url ->
    requests_get E url = inr image_bytes ->
    snd (upload_image_to_slack E channel thread_ts image_bytes user_prompt)
    = inl e ->
    fails_at cfg E channel thread_ts user_prompt e.

(** Two environments that differ at most in the calls a dispatched unit
    makes for generation, download and upload. *)
Definition same_slack_side (E E' : env) : Prop :=
  auth_test E = auth_test E' /\
  (forall channel thread_ts text,
     chat_postMessage E channel thread_ts text
     = chat_postMessage E' channel thread_ts text) /\
  forall e, response_error E e = response_error E' e.

(** Delete each occurrence of [tok], found from the left; [skip] counts the
    characters of the current occurrence still to drop. *)
Fixpoint remove_from (tok : string) (skip : nat) (s : string) : string :=
  match s with
  | EmptyString => EmptyString
  | String c s' =>
      match skip with
      | S k => remove_from tok k s'
      | O =>
          if startswith tok s
          then remove_from tok (String.length tok - 1) s'
          else String c (remove_from tok 0 s')
      end
  end.

Definition remove_token (tok s : string) : string := remove_from tok 0 s.

(** Each run of white space becomes one space. *)
Fixpoint collapse_ws (s : string) : string :=
  match s with
  | EmptyString => EmptyString
  | String c s' =>
      if isspace c
      then match s' with
           | String d _ =>
               if isspace d then collapse_ws s'
               else String " " (collapse_ws s')
           | EmptyString => " "
           end
      else String c (collapse_ws s')
  end.

Definition trim (s : string) : string := strip s.

Definition mention_token (bot_user_id : string) : string :=
  "<@" +:+ bot_user_id +:+ ">".

(** A letter or digit of ASCII, and an identifier made of one or more of
    them, as the user ids Slack hands out. *)
Definition id_char (c : ascii) : bool :=
  let n := N_of_ascii c in
  (((48 <=? n) && (n <=? 57)) || ((65 <=? n) && (n <=? 90))
   || ((97 <=? n) && (n <=? 122)))%N.

Fixpoint id_chars (s : string) : bool :=
  match s with
  | EmptyString => true
  | String c s' => id_char c && id_chars s'
  end.

Definition slack_id (s : string) : bool :=
  negb (String.eqb s "") && id_chars s.

(** A text with no white space in it, and one with no [<] in it. *)
Fixpoint no_space (s : string) : bool :=
  match s with
  | EmptyString => true
  | String c s' => negb (isspace c) && no_space s'
  end.

Fixpoint no_lt (s : string) : bool :=
  match s with
  | EmptyString => true
  | String c s' => negb (Ascii.eqb "<" c) && no_lt s'
  end.

(** The prompt as the specification describes it. *)
Definition prompt_of (text bot_user_id : string) : string :=
  trim (collapse_ws (remove_token (mention_token bot_user_id) text)).

(** An identifier with no character that means something in a pattern, as
    the ids Slack hands out. *)
Fixpoint plain (bot_user_id : string) : bool :=
  match bot_user_id with
  | EmptyString => true
  | String c rest => negb (special c) && plain rest
  end.

(** The opcodes of a pattern made of such characters only. *)
Fixpoint literal_ops (p : string) : list op :=
  match p with
  | EmptyString => []
  | String c p' => Single (Literal c) :: literal_ops p'
  end.

(** [[-\s]?], and the age pattern after the number. *)
Definition opt_sep : op :=
  MaxRepeat 0 (Some 1) (In [ItemLiteral "-"; ItemSpace]).

Definition after_number : list op :=
  opt_sep :: literal_ops "year" ++ opt_sep :: literal_ops "old".

(** The longest run of digits at the front, and what follows it. *)
Fixpoint span_digits (s : string) : string * string :=
  match s with
  | EmptyString => (EmptyString, EmptyString)
  | String c s' =>
      if isdigit c
      then let (ds, rest) := span_digits s' in (String c ds, rest)
      else (EmptyString, s)
  end.

Definition is_sep (c : ascii) : bool := Ascii.eqb c "-" || isspace c.

(** At most one hyphen or white-space character. *)
Definition skip_sep (s : string) : string :=
  match s with
  | String c s' => if is_sep c then s' else s
  | EmptyString => EmptyString
  end.

(** Digits only, and at most one separator. *)
Fixpoint digits (s : string) : bool :=
  match s with
  | EmptyString => true
  | String c s' => isdigit c && digits s'
  end.

Definition optional_sep (x : string) : bool :=
  match x with
  | EmptyString => true
  | String c EmptyString => is_sep c
  | _ => false
  end.

(** [s[n:]]. *)
Fixpoint slice_from (n : nat) (s : string) : string :=
  match n, s with
  | S k, String _ s' => slice_from k s'
  | _, _ => s
  end.

Definition expect (word s : string) : option string :=
  if startswith word s then Some (slice_from (String.length word) s) else None.

(** [Some N] when [s] begins with N, "year" and "old", with at most one
    hyphen or white-space character before and after "year". *)
Definition age_phrase (s : string) : option string :=
  let (ds, rest) := span_digits s in
  if String.eqb ds "" then None
  else match expect "year" (skip_sep rest) with
       | Some rest' =>
           match expect "old" (skip_sep rest') with
           | Some _ => Some ds
           | None => None
           end
       | None => None
       end.

(** The number of the first such phrase in [s], reading from the left. *)
Fixpoint first_age_phrase (s : string) : option string :=
  match age_phrase s with
  | Some ds => Some ds
  | None =>
      match s with
      | EmptyString => None
      | String _ s' => first_age_phrase s'
      end
  end.

(** The conditions under which an [event_callback] request is answered
    rather than ended by an exception: a hashable id and, for an event not
    seen before, an object as the event and, for a mention, a text that is a
    string and, when the prompt comes out empty, a usage post that
    returns. *)
Definition answered (E : env) (top : list (string * json))
    (processed_events : gset pykey) : bool :=
  match hashable (get top "event_id") with
  | None => false
  | Some key =>
      seen key processed_events
      || match get_or top "event" (JObj []) with
         | JObj ev =>
             negb (eq_str (get ev "type") "app_mention")
             || match get_or ev "text" (JStr "") with
                | JStr text =>
                    negb (String.eqb
                            (prompt_of text (resolve_bot_user_id E)) "")
                    || post_returns E (get ev "channel")
                         (py_or (get ev "thread_ts") (get ev "ts"))
                         TextUsage
                | _ => false
                end
         | _ => false
         end
  end.

End Spec.

(** ** Further properties, in terms of the code *)

Module Props.
Import PyStr Sre Bot Spec.

(** A word: not empty, no white space in it. *)
Definition is_word (w : string) : bool :=
  negb (String.eqb w "") && no_space w.

(** Every white-space character is a space that has a character other than
    white space after it. *)
Fixpoint single_spaced (s : string) : bool :=
  match s with
  | EmptyString => true
  | String c s' =>
      (if isspace c
       then Ascii.eqb c " "
            && match s' with
               | String d _ => negb (isspace d)
               | EmptyString => false
               end
       else true)
      && single_spaced s'
  end.

(** Words with one space between them and nothing around them. *)
Definition normalized (s : string) : bool :=
  match s with
  | String c _ => negb (isspace c)
  | EmptyString => true
  end && single_spaced s.

Fixpoint no_digit (s : string) : bool :=
  match s with
  | EmptyString => true
  | String c s' => negb (isdigit c) && no_digit s'
  end.

(** The four calls of a dispatched unit, in the order of the [try] block,
    and the post of the failure text. *)
Definition unit_calls (cfg : config) (channel thread_ts : json)
    (user_prompt url : string) (image_bytes : list Byte.byte) : list effect :=
  [ CallPostMessage channel thread_ts TextCreating;
    CallReplicate (REPLICATE_MODEL cfg)
      (build_input cfg (enhance_prompt cfg user_prompt));
    CallGet url;
    CallFilesUpload channel thread_ts image_bytes user_prompt ].

Definition failure_post (channel thread_ts : json) (e : pyexc) : effect :=
  CallPostMessage channel thread_ts (TextFailure (exc_str e)).

(** What has answered before call number [n] of a unit is made: the
    working-on-it post has returned before the second, the model has given
    a result that stands for [url] before the third, and [url] has been
    downloaded as [image_bytes] before the fourth. *)
Definition stages_passed (cfg : config) (E : env) (channel thread_ts : json)
    (user_prompt url : string) (image_bytes : list Byte.byte) (n : nat)
  : Prop :=
  (1 < n -> post_returns E channel thread_ts TextCreating = true)
  /\ (2 < n ->
      exists out,
        replicate_run E (REPLICATE_MODEL cfg)
          (build_input cfg (enhance_prompt cfg user_prompt)) = inr out
        /\ output_url out = inr url)
  /\ (3 < n -> requests_get E url = inr image_bytes).

(** Call number [n] of a unit ends in the exception [e]. *)
Definition stage_raises (cfg : config) (E : env) (channel thread_ts : json)
    (user_prompt url : string) (image_bytes : list Byte.byte) (n : nat)
    (e : pyexc) : Prop :=
  match n with
  | 1 => snd (send_slack_message E channel thread_ts TextCreating) = inl e
  | 2 => snd (generate_image cfg E user_prompt) = inl e
  | 3 => snd (download_image E url) = inl e
  | 4 => snd (upload_image_to_slack E channel thread_ts image_bytes
                user_prompt) = inl e
  | _ => False
  end.

(** What the view itself may do: ask who the bot is, post the usage text,
    start a thread. *)
Definition receiver_effect (f : effect) : bool :=
  match f with
  | CallAuthTest => true
  | CallPostMessage _ _ TextUsage => true
  | ThreadStart _ _ _ => true
  | _ => false
  end.

(** An event callback under the id [key]. *)
Definition callback_with_id (key : pykey) (data : json) : bool :=
  match data with
  | JObj top =>
      eq_str (get top "type") "event_callback"
      && bool_decide (hashable (get top "event_id") = Some key)
  | _ => false
  end.

(** An event callback whose event is [null]. *)
Definition null_event_body : list (string * json) :=
  [("type", JStr "event_callback"); ("event_id", JStr "E3");
   ("event", JNull)].

(** A set that holds 1000 ids, and an event callback under an id that is
    not one of them. *)
Definition full_set : gset pykey := list_to_set (sample_id <$> seq 0 1000).

Definition overflow_body : list (string * json) :=
  [("type", JStr "event_callback");
   ("event_id", JStr ("Ev" +:+ pretty 1000));
   ("event", JObj replayed_event)].

(** An event callback of another type, under the id of [replayed_body]. *)
Definition reaction_body : list (string * json) :=
  [("type", JStr "event_callback"); ("event_id", JStr "E1");
   ("event", JObj [("type", JStr "reaction_added"); ("user", JStr "U999")])].

End Props.

Import PyStr Sre Bot Spec.

(** ** Normalizing the generation result *)

(** C1, as the code has it: [output_url] returns the URL of a recognized
    shape, or the [str()] of a first list element that is neither
    url-bearing nor a string, or raises the unexpected-output exception, and
    it raises exactly for the empty list and for a single object that is
    neither url-bearing nor a string. *)
Theorem output_url_cases (out : output) :
  (exists url, output_url out = inr url /\
     (recognized out url \/
      exists rest, out = OutList (PObj None url :: rest)))
  \/ (exists shown, output_url out = inl (unexpected_output shown) /\
        (out = OutList [] /\ shown = "[]" \/ out = OutOne (PObj None shown))).
Proof.
  destruct out as [[|[s|[url|] str_] rest]|[s|[url|] str_]]; simpl.
  - right. exists "[]". split; [reflexivity|left; split; reflexivity].
  - left. exists s. split; [reflexivity|left; constructor].
  - left. exists url. split; [reflexivity|left; constructor].
  - left. exists str_. split; [reflexivity|right; exists rest; reflexivity].
  - left. exists s. split; [reflexivity|left; constructor].
  - left. exists url. split; [reflexivity|left; constructor].
  - right. exists str_. split; [reflexivity|right; reflexivity].
Qed.

(** C1, as the specification has it, fails on a list whose first element is
    [None]: the code returns the text [None] as the URL. *)
Lemma output_url_stringifies :
  output_url (OutList [PObj None "None"]) = inr "None"
  /\ ~ recognized (OutList [PObj None "None"]) "None"
  /\ ~ (forall out,
          (exists url, output_url out = inr url /\ recognized out url)
          \/ (exists shown, output_url out = inl (unexpected_output shown))).
Proof.
  split; [reflexivity|]. split.
  - intros H. inversion H.
  - intros H. destruct (H (OutList [PObj None "None"])) as [[url [Hu Hr]]|[shown Hs]].
    + simpl in Hu. injection Hu as <-. inversion Hr.
    + simpl in Hs. discriminate Hs.
Qed.

(** ** The set of processed events *)

Lemma size_add_event_fresh (x : pykey) (s : gset pykey) :
  x ∉ s -> size (add_event x s) = S (size s).
Proof.
  intros Hx. unfold add_event.
  rewrite size_union by set_solver. by rewrite size_singleton.
Qed.

Lemma size_add_event_le (x : pykey) (s : gset pykey) :
  size (add_event x s) <= S (size s).
Proof.
  unfold add_event. rewrite size_union_alt, size_singleton.
  assert (size (s ∖ {[x]}) <= size s) by (apply subseteq_size; set_solver).
  lia.
Qed.

Lemma size_cleanup (s : gset pykey) : size (cleanup s) <= 1000.
Proof.
  unfold cleanup. case_decide; [rewrite size_empty|]; lia.
Qed.

Lemma mark_keeps (x : pykey) (s : gset pykey) :
  size (add_event x s) <= 1000 -> mark x s = add_event x s.
Proof. intros H. unfold mark, cleanup. case_decide; [lia|done]. Qed.

Lemma mark_clears (x : pykey) (s : gset pykey) :
  1000 < size (add_event x s) -> mark x s = ∅.
Proof. intros H. unfold mark, cleanup. case_decide; [done|lia]. Qed.

Lemma mark_all_cons (ids : list pykey) (x : pykey) (s : gset pykey) :
  mark_all (x :: ids) s = mark_all ids (mark x s).
Proof. unfold mark_all. simpl. reflexivity. Qed.

Lemma mark_all_snoc (ids : list pykey) (x : pykey) (s : gset pykey) :
  mark_all (ids ++ [x]) s = mark x (mark_all ids s).
Proof. unfold mark_all. rewrite foldl_app. simpl. reflexivity. Qed.

Lemma size_mark_all (ids : list pykey) (s : gset pykey) :
  size s <= 1000 -> size (mark_all ids s) <= 1000.
Proof.
  revert s. induction ids as [|x ids IH]; intros s Hs; [done|].
  rewrite mark_all_cons. apply IH. unfold mark. apply size_cleanup.
Qed.

(** Below the cap, marking fresh ids just adds them. *)
Lemma mark_all_fresh (ids : list pykey) (s : gset pykey) :
  NoDup ids -> (forall x, x ∈ ids -> x ∉ s) ->
  size s + List.length ids <= 1000 ->
  mark_all ids s = list_to_set ids ∪ s
  /\ size (mark_all ids s) = size s + List.length ids.
Proof.
  revert s. induction ids as [|x ids IH]; intros s Hnd Hfresh Hsize.
  - simpl. split; [set_solver|lia].
  - apply NoDup_cons in Hnd as [Hx Hnd]. simpl in Hsize.
    assert (x ∉ s) as Hxs by (apply Hfresh; set_solver).
    pose proof (size_add_event_fresh x s Hxs) as Hadd.
    rewrite mark_all_cons, mark_keeps by lia.
    destruct (IH (add_event x s)) as [Heq Hsz]; [done| |lia|].
    + intros y Hy. unfold add_event.
      assert (y ∉ s) by (apply Hfresh; set_solver).
      set_solver.
    + split; [rewrite Heq; unfold add_event; set_solver|].
      rewrite Hsz, Hadd. simpl. lia.
Qed.

(** The insert that makes the set 1001 ids large empties it. *)
Lemma mark_all_reaches_cap (ids : list pykey) :
  NoDup ids -> List.length ids = 1001 ->
  size (mark_all (take 1000 ids) ∅) = 1000 /\ mark_all ids ∅ = ∅.
Proof.
  intros Hnd Hlen.
  rewrite <- (take_drop 1000 ids) in Hnd.
  apply NoDup_app in Hnd as (Hnd1 & Hdisj & Hnd2).
  assert (List.length (take 1000 ids) = 1000) as Hl1 by (rewrite length_take; lia).
  destruct (mark_all_fresh (take 1000 ids) ∅ Hnd1) as [Heq Hsz];
    [set_solver|rewrite size_empty; lia|].
  rewrite size_empty, Hl1 in Hsz. split; [done|].
  destruct (drop 1000 ids) as [|x [|y rest]] eqn:Hd.
  - apply (f_equal List.length) in Hd. rewrite length_drop in Hd. simpl in Hd. lia.
  - rewrite <- (take_drop 1000 ids), Hd, mark_all_snoc.
    apply mark_clears. rewrite size_add_event_fresh; [lia|].
    rewrite Heq. intros Hin. clear Hsz Hl1 Hlen Heq.
    apply (Hdisj x); [|constructor].
    apply elem_of_union in Hin as [Hin|Hin];
      [by apply elem_of_list_to_set in Hin|by apply elem_of_empty in Hin].
  - apply (f_equal List.length) in Hd. rewrite length_drop in Hd. simpl in Hd. lia.
Qed.

Lemma size_mark_empty (x : pykey) : size (mark x ∅) = 1.
Proof.
  assert (size (add_event x ∅) = 1) as Hadd.
  { rewrite size_add_event_fresh by set_solver. by rewrite size_empty. }
  rewrite mark_keeps; [done|]. rewrite Hadd. lia.
Qed.

Lemma sample_ids_NoDup : NoDup sample_ids.
Proof.
  assert (Inj (=) (=) sample_id) as Hinj.
  { intros m n Hmn. unfold sample_id in Hmn.
    injection Hmn as Hmn. by apply (inj pretty). }
  unfold sample_ids. apply (NoDup_fmap_2 sample_id), NoDup_seq.
Qed.

Lemma sample_ids_length : List.length sample_ids = 1001.
Proof. unfold sample_ids. rewrite length_fmap. apply length_seq. Qed.

(** C3, as the code has it: the insert of the 1001st distinct id is itself
    the one that empties the set, so the set is empty as soon as 1001 ids
    are in, every one of them is then unseen, and the insert after that
    leaves one entry; the set holds at most 1000 ids between requests and at
    most 1001 between [add] and [clear]. *)
Theorem cap_then_clear (ids : list pykey) :
  NoDup ids -> List.length ids = 1001 ->
  size (mark_all (take 1000 ids) ∅) = 1000
  /\ mark_all ids ∅ = ∅
  /\ (forall event_id, event_id ∈ ids -> seen event_id (mark_all ids ∅) = false)
  /\ (forall next, size (mark next (mark_all ids ∅)) = 1)
  /\ (forall k next,
        size (mark_all (take k ids) ∅) <= 1000
        /\ size (add_event next (mark_all (take k ids) ∅)) <= 1001).
Proof.
  intros Hnd Hlen.
  destruct (mark_all_reaches_cap ids Hnd Hlen) as [Hfull Hclear].
  split; [done|]. split; [done|]. rewrite Hclear.
  split; [|split].
  - intros event_id _. unfold seen. apply bool_decide_eq_false. set_solver.
  - intros next. apply size_mark_empty.
  - intros k next.
    assert (size (mark_all (take k ids) ∅) <= 1000) as Hk
      by (apply size_mark_all; rewrite size_empty; lia).
    split; [done|].
    pose proof (size_add_event_le next (mark_all (take k ids) ∅)). lia.
Qed.

Lemma cap_then_clear_sample :
  NoDup sample_ids /\ List.length sample_ids = 1001
  /\ mark_all sample_ids ∅ = ∅
  /\ size (mark one_more_id (mark_all sample_ids ∅)) = 1.
Proof.
  split; [exact sample_ids_NoDup|]. split; [exact sample_ids_length|].
  pose proof (cap_then_clear sample_ids sample_ids_NoDup sample_ids_length)
    as (_ & Hclear & _ & Hnext & _).
  split; [exact Hclear|exact (Hnext one_more_id)].
Defined.

(** C3, as the specification has it, fails: with 1001 distinct ids marked
    the set is already empty, and the next insert leaves it with one entry,
    not none. *)
Lemma reset_not_on_next_insert :
  NoDup sample_ids /\ List.length sample_ids = 1001
  /\ size (mark_all sample_ids ∅) = 0
  /\ size (mark one_more_id (mark_all sample_ids ∅)) <> 0.
Proof.
  split; [exact sample_ids_NoDup|]. split; [exact sample_ids_length|].
  destruct (mark_all_reaches_cap sample_ids sample_ids_NoDup sample_ids_length)
    as [_ Hclear].
  rewrite Hclear. split; [apply size_empty|].
  rewrite (size_mark_empty one_more_id). discriminate.
Qed.

(** ** The webhook handler *)

Lemma eq_str_true (v : json) (s : string) :
  eq_str v s = true -> v = JStr s.
Proof.
  destruct v; simpl; try discriminate.
  intros H. apply String.eqb_eq in H. by subst.
Qed.

Lemma event_callback_not_verification (v : json) :
  eq_str v "event_callback" = true -> eq_str v "url_verification" = false.
Proof. intros H. apply eq_str_true in H. by subst. Qed.

Lemma seen_true (key : pykey) (s : gset pykey) :
  seen key s = true <-> key ∈ s.
Proof. unfold seen. apply bool_decide_eq_true. Qed.

Lemma seen_false (key : pykey) (s : gset pykey) :
  seen key s = false <-> key ∉ s.
Proof. unfold seen. apply bool_decide_eq_false. Qed.

Lemma missing_id_is_None (top : list (string * json)) :
  lookup_field "event_id" top = None -> hashable (get top "event_id") = Some KNone.
Proof. intros H. unfold get. by rewrite H. Qed.

(** The handler on an event callback whose id is in the set. *)
Lemma slack_events_duplicate (E : env) (top : list (string * json))
    (s : gset pykey) (key : pykey) :
  eq_str (get top "type") "event_callback" = true ->
  hashable (get top "event_id") = Some key ->
  key ∈ s ->
  slack_events E (JObj top) s = Outcome (Responded status_ok) s [].
Proof.
  intros Htype Hkey Hin. unfold slack_events.
  rewrite (event_callback_not_verification _ Htype), Htype, Hkey.
  apply seen_true in Hin. by rewrite Hin.
Qed.

(** The handler on an event callback whose id is new. *)
Lemma slack_events_fresh (E : env) (top : list (string * json))
    (s : gset pykey) (key : pykey) :
  eq_str (get top "type") "event_callback" = true ->
  hashable (get top "event_id") = Some key ->
  key ∉ s ->
  slack_events E (JObj top) s
  = handle_event E (get_or top "event" (JObj [])) (mark key s).
Proof.
  intros Htype Hkey Hin. unfold slack_events.
  rewrite (event_callback_not_verification _ Htype), Htype, Hkey.
  apply seen_false in Hin. by rewrite Hin.
Qed.

(** [handle_event] leaves the set as it got it. *)
Lemma handle_event_set (E : env) (event : json) (s : gset pykey) :
  o_processed_events (handle_event E event s) = s.
Proof.
  unfold handle_event. destruct event; try reflexivity.
  destruct (eq_str _ _); [|reflexivity].
  destruct (get_or fields "text" (JStr ""));
    try (destruct (compile _); reflexivity).
  destruct (extract_prompt_from_message _ _) as [p|]; [|reflexivity].
  destruct (String.eqb p ""); [|reflexivity].
  unfold send_slack_message, print_response_error, finish, bind, emit, ret,
    raise.
  destruct (chat_postMessage _ _ _ _) as [e|]; [|reflexivity].
  destruct (is_slack_api_error e); [|reflexivity].
  destruct (response_error E e); reflexivity.
Qed.

Lemma mark_keeps_member (key key' : pykey) (s : gset pykey) :
  key ∈ s -> size (add_event key' s) <= 1000 -> key ∈ mark key' s.
Proof.
  intros Hin Hsize. rewrite mark_keeps by done. unfold add_event. set_solver.
Qed.

Lemma mark_records (key : pykey) (s : gset pykey) :
  size s < 1000 -> key ∈ mark key s.
Proof.
  intros Hsize. pose proof (size_add_event_le key s).
  rewrite mark_keeps by lia. unfold add_event. set_solver.
Qed.

(** C4: an event callback whose id is already in the set gets the plain
    acknowledgment, nothing is called or started for it and the set stays
    as it was; delivered twice in a row it leaves the same trace and the same
    set as delivered once. *)
Theorem duplicate_event_dropped (E : env) (top : list (string * json))
    (s : gset pykey) (key : pykey) :
  eq_str (get top "type") "event_callback" = true ->
  hashable (get top "event_id") = Some key ->
  key ∈ s ->
  slack_events E (JObj top) s = Outcome (Responded status_ok) s []
  /\ traces (serve E [JObj top; JObj top] s) = traces (serve E [JObj top] s)
  /\ last_set (serve E [JObj top; JObj top] s) s
     = last_set (serve E [JObj top] s) s
  /\ Forall (fun o => o_result o = Responded status_ok /\ o_trace o = [])
       (serve E [JObj top; JObj top] s).
Proof.
  intros Htype Hkey Hin.
  pose proof (slack_events_duplicate E top s key Htype Hkey Hin) as Hdup.
  split; [exact Hdup|].
  cbn [serve]. rewrite Hdup. cbn [o_processed_events]. rewrite Hdup.
  repeat split; repeat constructor.
Qed.

Lemma duplicate_event_dropped_E1 :
  slack_events calm_env (JObj replayed_body) {[ KStr "E1" ]}
  = Outcome (Responded status_ok) {[ KStr "E1" ]} [].
Proof.
  apply (duplicate_event_dropped calm_env replayed_body {[ KStr "E1" ]} (KStr "E1")).
  - reflexivity.
  - reflexivity.
  - apply elem_of_singleton. reflexivity.
Defined.

(** C6, as the code has it: a new mention whose text comes out of
    [extract_prompt_from_message] empty makes the view call
    [chat.postMessage] once, with the usage text, for the channel and the
    thread of the event, and start no thread.  The response is the plain
    acknowledgment when that call returns, or raises a [SlackApiError] whose
    response error can be printed; any other exception of the call, or the
    one raised while looking up the response error, leaves the view. *)
Theorem empty_prompt_gets_usage_hint (E : env) (top ev : list (string * json))
    (s : gset pykey) (key : pykey) (text : string) :
  eq_str (get top "type") "event_callback" = true ->
  hashable (get top "event_id") = Some key ->
  key ∉ s ->
  get_or top "event" (JObj []) = JObj ev ->
  eq_str (get ev "type") "app_mention" = true ->
  get_or ev "text" (JStr "") = JStr text ->
  extract_prompt_from_message text (resolve_bot_user_id E) = Some "" ->
  let channel := get ev "channel" in
  let thread_ts := py_or (get ev "thread_ts") (get ev "ts") in
  let o := slack_events E (JObj top) s in
  o_trace o = [CallAuthTest; CallPostMessage channel thread_ts TextUsage]
  /\ existsb is_thread_start (o_trace o) = false
  /\ o_result o =
       match chat_postMessage E channel thread_ts TextUsage with
       | None => Responded status_ok
       | Some e =>
           if is_slack_api_error e
           then match response_error E e with
                | inr _ => Responded status_ok
                | inl e' => Raised e'
                end
           else Raised e
       end
  /\ (post_returns E channel thread_ts TextUsage = true ->
      o_result o = Responded status_ok).
Proof.
  intros Htype Hkey Hnew Hev Hmention Htext Hempty channel thread_ts o.
  subst o. rewrite (slack_events_fresh E top s key Htype Hkey Hnew), Hev.
  unfold handle_event. rewrite Hmention, Htext, Hempty. simpl String.eqb.
  fold channel thread_ts.
  unfold post_returns, send_slack_message, print_response_error, finish, bind,
    emit, ret, raise.
  destruct (chat_postMessage E channel thread_ts TextUsage) as [e|];
    [destruct (is_slack_api_error e); [destruct (response_error E e)|]|];
    simpl; repeat split; discriminate.
Qed.

Lemma empty_prompt_gets_usage_hint_U123 :
  o_trace (slack_events calm_env (JObj mention_only_body) ∅)
  = [CallAuthTest; CallPostMessage (JStr "C1") (JStr "T1") TextUsage].
Proof.
  refine (proj1 (empty_prompt_gets_usage_hint calm_env mention_only_body
    mention_only_event ∅ (KStr "E2") "<@U123>" _ _ _ _ _ _ _)); try reflexivity.
  apply not_elem_of_empty.
Defined.

(** C6, as the specification has it, fails where Slack cannot be reached:
    the text of the mention comes out empty, the usage post is tried, and
    its exception leaves the view instead of the view returning. *)
Lemma usage_hint_post_can_raise :
  extract_prompt_from_message "<@U123>" (resolve_bot_user_id offline_env)
  = Some ""
  /\ slack_events offline_env (JObj mention_only_body) ∅
     = Outcome (Raised (PyExc OtherException "URLError: connection refused"))
         (mark (KStr "E2") ∅)
         [CallAuthTest; CallPostMessage (JStr "C1") (JStr "T1") TextUsage]
  /\ http_status (o_result (slack_events offline_env (JObj mention_only_body) ∅))
     = Some 500%Z.
Proof. repeat split. Qed.

(** The same with a [SlackApiError] whose response has no data: the
    [print] of the [except] clause raises. *)
Example usage_hint_print_can_raise :
  o_result (slack_events no_data_env (JObj mention_only_body) ∅)
  = Raised (PyExc OtherException
              "As the response.data is empty, this operation is unsupported").
Proof. reflexivity. Qed.

(** C9: an event callback with no [event_id] goes under the key [None]: if
    [None] is not in the set the event is handled, on the set with [None]
    marked, and [None] stays in the set unless that insert took the set over
    the cap; while [None] is in the set every event callback with no
    [event_id] is answered as a duplicate, and [None] stays until an insert
    takes the set over the cap. *)
Theorem missing_event_id_is_None (E : env) (top : list (string * json))
    (s : gset pykey) :
  eq_str (get top "type") "event_callback" = true ->
  lookup_field "event_id" top = None ->
  (KNone ∉ s ->
     slack_events E (JObj top) s
     = handle_event E (get_or top "event" (JObj [])) (mark KNone s)
     /\ o_processed_events (slack_events E (JObj top) s) = mark KNone s
     /\ (size s < 1000 -> KNone ∈ mark KNone s))
  /\ (KNone ∈ s ->
        slack_events E (JObj top) s = Outcome (Responded status_ok) s [])
  /\ (forall key, KNone ∈ s -> size (add_event key s) <= 1000 ->
        KNone ∈ mark key s)
  /\ (KNone ∉ s -> size s < 1000 ->
      forall E' top',
        eq_str (get top' "type") "event_callback" = true ->
        lookup_field "event_id" top' = None ->
        nth_error (serve E' [JObj top; JObj top'] s) 1
        = Some (Outcome (Responded status_ok) (mark KNone s) [])).
Proof.
  intros Htype Hmissing.
  pose proof (missing_id_is_None top Hmissing) as Hkey.
  split; [|split; [|split]].
  - intros Hnew.
    pose proof (slack_events_fresh E top s KNone Htype Hkey Hnew) as Hfresh.
    split; [exact Hfresh|]. split.
    + rewrite Hfresh. apply handle_event_set.
    + apply mark_records.
  - intros Hin. by apply (slack_events_duplicate E top s KNone).
  - intros key. apply mark_keeps_member.
  - intros Hnew Hsize E' top' Htype' Hmissing'.
    cbn [serve nth_error]. f_equal.
    rewrite (slack_events_fresh E' top s KNone Htype Hkey Hnew).
    rewrite handle_event_set.
    apply (slack_events_duplicate E' top' _ KNone Htype').
    + by apply missing_id_is_None.
    + by apply mark_records.
Qed.

Lemma missing_event_id_is_None_twice :
  nth_error (serve calm_env [JObj no_id_body; JObj no_id_body] ∅) 1
  = Some (Outcome (Responded status_ok) (mark KNone ∅) []).
Proof.
  refine (proj2 (proj2 (proj2
    (missing_event_id_is_None calm_env no_id_body ∅ _ _))) _ _
    calm_env no_id_body _ _); try reflexivity.
  - apply not_elem_of_empty.
  - rewrite size_empty. lia.
Defined.

(** ** The dispatched unit *)

Lemma send_slack_message_pair (E : env) (channel thread_ts : json)
    (text : bot_text) :
  send_slack_message E channel thread_ts text
  = ([CallPostMessage channel thread_ts text],
     snd (send_slack_message E channel thread_ts text)).
Proof.
  unfold send_slack_message, print_response_error, bind, emit, ret, raise.
  destruct (chat_postMessage E channel thread_ts text) as [e|]; [|reflexivity].
  destruct (is_slack_api_error e); [|reflexivity].
  destruct (response_error E e); reflexivity.
Qed.

Lemma upload_image_to_slack_pair (E : env) (channel thread_ts : json)
    (image_bytes : list Byte.byte) (prompt : string) :
  upload_image_to_slack E channel thread_ts image_bytes prompt
  = ([CallFilesUpload channel thread_ts image_bytes prompt],
     snd (upload_image_to_slack E channel thread_ts image_bytes prompt)).
Proof.
  unfold upload_image_to_slack, print_response_error, bind, emit, ret, raise.
  destruct (files_upload_v2 E channel thread_ts image_bytes prompt) as [e|];
    [|reflexivity].
  destruct (is_slack_api_error e); [|reflexivity].
  destruct (response_error E e); reflexivity.
Qed.

Lemma post_returns_spec (E : env) (channel thread_ts : json)
    (text : bot_text) :
  post_returns E channel thread_ts text = true
  <-> snd (send_slack_message E channel thread_ts text) = inr tt.
Proof.
  unfold post_returns, send_slack_message, print_response_error, bind, emit,
    ret, raise.
  destruct (chat_postMessage E channel thread_ts text) as [e|]; [|done].
  destruct (is_slack_api_error e); [|done].
  by destruct (response_error E e).
Qed.

Lemma send_slack_message_returns (E : env) (channel thread_ts : json)
    (text : bot_text) :
  post_returns E channel thread_ts text = true ->
  send_slack_message E channel thread_ts text
  = ([CallPostMessage channel thread_ts text], inr tt).
Proof.
  intros H. apply post_returns_spec in H.
  by rewrite send_slack_message_pair, H.
Qed.

(** Whatever the [try] block raised, the handler of the unit posts the
    failure text once, after everything the block did, and the unit ends as
    that post does. *)
Lemma process_boundary (cfg : config) (E : env) (channel thread_ts : json)
    (user_prompt : string) (t : list effect) (e : pyexc) :
  process_steps cfg E channel thread_ts user_prompt = (t, inl e) ->
  process_image_request cfg E channel thread_ts user_prompt
  = (t ++ [CallPostMessage channel thread_ts (TextFailure (exc_str e))],
     snd (send_slack_message E channel thread_ts (TextFailure (exc_str e)))).
Proof.
  intros Hsteps. unfold process_image_request, try_except. rewrite Hsteps.
  by rewrite send_slack_message_pair.
Qed.

(** A failure at a stage ends the [try] block with that exception, before
    any failure text is posted. *)
Lemma process_steps_fail (cfg : config) (E : env) (channel thread_ts : json)
    (user_prompt : string) (e : pyexc) :
  post_returns E channel thread_ts TextCreating = true ->
  fails_at cfg E channel thread_ts user_prompt e ->
  exists t, process_steps cfg E channel thread_ts user_prompt = (t, inl e)
            /\ List.filter is_failure_post t = [].
Proof.
  intros Hack Hfail. unfold process_steps.
  rewrite (send_slack_message_returns _ _ _ _ Hack).
  unfold generate_image, download_image.
  destruct Hfail as [e Hrun|out e Hrun Hshape|out url e Hrun Hshape Hget
                    |out url image_bytes e Hrun Hshape Hget Hup].
  - unfold bind, emit, ret, raise, lift. rewrite Hrun.
    eexists. split; reflexivity.
  - unfold bind, emit, ret, raise, lift. rewrite Hrun, Hshape.
    eexists. split; reflexivity.
  - unfold bind, emit, ret, raise, lift. rewrite Hrun, Hshape, Hget.
    eexists. split; reflexivity.
  - unfold bind, emit, ret, raise, lift. rewrite Hrun, Hshape, Hget.
    cbv beta iota.
    rewrite (upload_image_to_slack_pair E channel thread_ts image_bytes), Hup.
    eexists. split; reflexivity.
Qed.

Lemma filter_failure_snoc (t : list effect) (f : effect) :
  List.filter is_failure_post t = [] -> is_failure_post f = true ->
  List.filter is_failure_post (t ++ [f]) = [f].
Proof.
  intros Ht Hf. rewrite List.filter_app, Ht. simpl. by rewrite Hf.
Qed.

(** The view asks the environment for nothing but [auth.test],
    [chat.postMessage] and the response error of what that raised. *)
Lemma slack_events_same_slack_side (E E' : env) (data : json)
    (s : gset pykey) :
  same_slack_side E E' -> slack_events E data s = slack_events E' data s.
Proof.
  intros (Hauth & Hpost & Hresp). unfold slack_events, handle_event.
  unfold resolve_bot_user_id, send_slack_message, print_response_error.
  rewrite Hauth.
  destruct data; try reflexivity.
  destruct (eq_str _ _); [reflexivity|].
  destruct (eq_str _ _); [|reflexivity].
  destruct (hashable _); [|reflexivity].
  destruct (seen _ _); [reflexivity|].
  destruct (get_or fields "event" (JObj [])); try reflexivity.
  destruct (eq_str _ _); [|reflexivity].
  destruct (get_or _ "text" _); try reflexivity.
  destruct (extract_prompt_from_message _ _); [|reflexivity].
  destruct (String.eqb _ _); [|reflexivity].
  rewrite Hpost. destruct (chat_postMessage E' _ _ _) as [e|]; [|reflexivity].
  by rewrite Hresp.
Qed.

(** C7, as the code has it: when generation, the shape of its result, the
    download or the upload raises [e] in a dispatched unit, the [except]
    clause of the unit calls [chat.postMessage] once, last, with the failure
    text that holds [str(e)], for the thread the unit works for.  The unit
    then ends as that call does: it returns when the call returns or raises
    a [SlackApiError] whose response error can be printed, and otherwise the
    exception of that call leaves [process_image_request].  What the view
    answers does not depend on the generation, download and upload calls. *)
Theorem unit_failure_is_reported (cfg : config) (E : env)
    (channel thread_ts : json) (user_prompt : string) (e : pyexc) :
  post_returns E channel thread_ts TextCreating = true ->
  fails_at cfg E channel thread_ts user_prompt e ->
  let report := CallPostMessage channel thread_ts (TextFailure (exc_str e)) in
  let r := process_image_request cfg E channel thread_ts user_prompt in
  List.filter is_failure_post (fst r) = [report]
  /\ (exists t, fst r = t ++ [report])
  /\ snd r =
       match chat_postMessage E channel thread_ts (TextFailure (exc_str e)) with
       | None => inr tt
       | Some e' =>
           if is_slack_api_error e'
           then match response_error E e' with
                | inr _ => inr tt
                | inl e'' => inl e''
                end
           else inl e'
       end
  /\ (post_returns E channel thread_ts (TextFailure (exc_str e)) = true ->
      snd r = inr tt)
  /\ (forall E' data s,
        same_slack_side E E' -> slack_events E data s = slack_events E' data s).
Proof.
  intros Hack Hfail report r.
  destruct (process_steps_fail cfg E channel thread_ts user_prompt e Hack Hfail)
    as (t & Hsteps & Hclean).
  subst r. rewrite (process_boundary _ _ _ _ _ _ _ Hsteps). simpl fst. simpl snd.
  split; [by apply filter_failure_snoc|]. split; [by exists t|].
  split; [|split].
  - unfold send_slack_message, print_response_error, bind, emit, ret, raise.
    destruct (chat_postMessage _ _ _ _) as [e'|]; [|reflexivity].
    destruct (is_slack_api_error e'); [|reflexivity].
    by destruct (response_error E e').
  - intros Hpost. by apply post_returns_spec.
  - intros E' data s. apply slack_events_same_slack_side.
Qed.

Lemma unit_failure_is_reported_sample :
  List.filter is_failure_post
    (fst (process_image_request sample_config failing_env (JStr "C1")
            (JStr "T1") "3 year old at the beach"))
  = [CallPostMessage (JStr "C1") (JStr "T1")
       (TextFailure "ReplicateError: model not found")].
Proof.
  refine (proj1 (unit_failure_is_reported sample_config failing_env
    (JStr "C1") (JStr "T1") "3 year old at the beach"
    (PyExc OtherException "ReplicateError: model not found") _ _)).
  - reflexivity.
  - apply fails_in_generation. reflexivity.
Defined.

(** C7, as the specification has it, fails where the failure text cannot be
    posted: the model call raises, the [except] clause tries to post the
    failure text, and the exception of that post leaves the unit. *)
Lemma unit_failure_post_can_raise :
  post_returns mute_env (JStr "C1") (JStr "T1") TextCreating = true
  /\ fails_at sample_config mute_env (JStr "C1") (JStr "T1")
       "3 year old at the beach"
       (PyExc OtherException "ReplicateError: model not found")
  /\ chat_postMessage mute_env (JStr "C1") (JStr "T1")
       (TextFailure "ReplicateError: model not found")
     = Some (PyExc OtherException "URLError: connection refused")
  /\ snd (process_image_request sample_config mute_env (JStr "C1")
            (JStr "T1") "3 year old at the beach")
     = inl (PyExc OtherException "URLError: connection refused").
Proof.
  split; [reflexivity|]. split; [|split; reflexivity].
  apply fails_in_generation. reflexivity.
Qed.

(** ** White space *)

Lemma lstrip_head (s : string) :
  lstrip s = "" \/ exists c t, lstrip s = String c t /\ isspace c = false.
Proof.
  induction s as [|c s IH]; simpl; [by left|].
  destruct (isspace c) eqn:Hc; [exact IH|].
  right. by exists c, s.
Qed.

Lemma lstrip_fixed (c : ascii) (s : string) :
  isspace c = false -> lstrip (String c s) = String c s.
Proof. intros H. simpl. by rewrite H. Qed.

Lemma rstrip_cons_word (c : ascii) (s : string) :
  isspace c = false -> rstrip (String c s) = String c (rstrip s).
Proof. intros H. simpl. rewrite H. by destruct (rstrip s). Qed.

Lemma rstrip_cons_space (c : ascii) (s : string) :
  isspace c = true ->
  rstrip (String c s)
  = match rstrip s with EmptyString => EmptyString | r => String c r end.
Proof. intros H. simpl. by rewrite H. Qed.

Lemma rstrip_idempotent (s : string) : rstrip (rstrip s) = rstrip s.
Proof.
  induction s as [|c s IH]; [reflexivity|]. simpl.
  destruct (rstrip s) as [|a r] eqn:Hr.
  - destruct (isspace c) eqn:Hc; [reflexivity|]. simpl. by rewrite Hc.
  - change (rstrip (String c (String a r))) with
      (match rstrip (String a r) with
       | EmptyString => if isspace c then EmptyString else String c ""
       | r' => String c r'
       end).
    by rewrite IH.
Qed.

Lemma collapse_ws_space (c : ascii) (s : string) :
  isspace c = true ->
  collapse_ws (String c s) = String " " (collapse_ws (lstrip s)).
Proof.
  revert c. induction s as [|d s IH]; intros c Hc.
  - simpl. by rewrite Hc.
  - change (collapse_ws (String c (String d s))) with
      (if isspace c
       then if isspace d then collapse_ws (String d s)
            else String " " (collapse_ws (String d s))
       else String c (collapse_ws (String d s))).
    rewrite Hc. simpl lstrip.
    destruct (isspace d) eqn:Hd; [by apply IH|reflexivity].
Qed.

Lemma collapse_ws_word (c : ascii) (s : string) :
  isspace c = false -> collapse_ws (String c s) = String c (collapse_ws s).
Proof. intros H. simpl. by rewrite H. Qed.

Lemma lstrip_collapse_ws (s : string) :
  lstrip (collapse_ws s) = collapse_ws (lstrip s).
Proof.
  destruct s as [|c s]; [reflexivity|].
  destruct (isspace c) eqn:Hc.
  - rewrite collapse_ws_space by done. simpl lstrip. rewrite Hc.
    destruct (lstrip_head s) as [->|(d & t & -> & Hd)]; [reflexivity|].
    rewrite collapse_ws_word by done. by apply lstrip_fixed.
  - rewrite collapse_ws_word, !lstrip_fixed by done.
    by rewrite collapse_ws_word.
Qed.

Lemma append_cons (a : ascii) (w r : string) :
  String a w +:+ r = String a (w +:+ r).
Proof. reflexivity. Qed.

Lemma append_nil (r : string) : "" +:+ r = r.
Proof. reflexivity. Qed.

Lemma append_nonempty (w : string) (c : ascii) : w +:+ String c "" <> "".
Proof. by destruct w. Qed.

Lemma eqb_empty_false (w : string) : w <> "" -> String.eqb w "" = false.
Proof. intros H. by apply String.eqb_neq. Qed.

Lemma split_from_word (w s : string) : w <> "" -> split_from w s <> [].
Proof.
  revert w. induction s as [|c s IH]; intros w Hw; simpl.
  - by rewrite eqb_empty_false.
  - destruct (isspace c).
    + by rewrite eqb_empty_false.
    + apply IH, append_nonempty.
Qed.

Lemma split_from_nil (s : string) :
  split_from "" s = [] <-> lstrip s = "".
Proof.
  induction s as [|c s IH]; simpl; [done|].
  destruct (isspace c); [exact IH|]. split; [|done].
  intros H. by apply split_from_word in H.
Qed.

Lemma append_assoc_char (w : string) (c : ascii) (r : string) :
  (w +:+ String c "") +:+ r = w +:+ String c r.
Proof.
  induction w as [|a w IH]; [reflexivity|].
  by rewrite !append_cons, IH.
Qed.

Lemma append_empty_r (w : string) : w +:+ "" = w.
Proof.
  induction w as [|a w IH]; [reflexivity|]. by rewrite append_cons, IH.
Qed.

(** [' '.join(s.split())] written with [collapse_ws]: after a word [w]
    that is being read, and at the start of a word. *)
Lemma join_split_from (s : string) :
  (forall w, w <> "" ->
     join " " (split_from w s) = w +:+ rstrip (collapse_ws s))
  /\ join " " (split_from "" s) = rstrip (collapse_ws (lstrip s)).
Proof.
  induction s as [|c s [IHw IH0]].
  - split; [|reflexivity]. intros w Hw. simpl.
    rewrite eqb_empty_false by done. simpl. by rewrite append_empty_r.
  - destruct (isspace c) eqn:Hc.
    + split; [|simpl; by rewrite Hc].
      intros w Hw. simpl split_from. rewrite Hc, eqb_empty_false by done.
      rewrite collapse_ws_space by done.
      destruct (lstrip_head s) as [Hs|(d & t & Hs & Hd)].
      * apply split_from_nil in Hs as Hnil. rewrite Hnil, Hs. simpl.
        by rewrite append_empty_r.
      * assert (split_from "" s <> []) as Hne.
        { intros Hnil. apply split_from_nil in Hnil. congruence. }
        destruct (split_from "" s) as [|w' l] eqn:Hl; [done|].
        change (join " " (w :: w' :: l))
          with (w +:+ " " +:+ join " " (w' :: l)).
        rewrite IH0, Hs, collapse_ws_word by done.
        rewrite (rstrip_cons_space " ") by reflexivity.
        by rewrite rstrip_cons_word.
    + assert (forall w, join " " (split_from (w +:+ String c "") s)
                        = w +:+ rstrip (collapse_ws (String c s))) as Hword.
      { intros w. rewrite IHw by apply append_nonempty.
        rewrite collapse_ws_word, rstrip_cons_word by done.
        apply append_assoc_char. }
      split.
      * intros w _. simpl split_from. rewrite Hc. apply Hword.
      * simpl split_from. rewrite Hc, lstrip_fixed by done. apply (Hword "").
Qed.

Lemma strip_join_split (s : string) :
  strip (join " " (split s)) = trim (collapse_ws s).
Proof.
  unfold split, trim, strip.
  rewrite (proj2 (join_split_from s)), lstrip_collapse_ws.
  destruct (lstrip_head s) as [->|(d & t & -> & Hd)]; [reflexivity|].
  rewrite collapse_ws_word, rstrip_cons_word, lstrip_fixed by done.
  by rewrite <- (rstrip_cons_word d) , rstrip_idempotent by done.
Qed.

(** ** Patterns made of literal characters *)

Lemma special_cases (c : ascii) :
  special c = false ->
  atom c = Some (Literal c) /\ quantifier c = None.
Proof.
  destruct c as [[] [] [] [] [] [] [] []]; vm_compute; intros H;
    first [discriminate H | split; reflexivity].
Qed.

Lemma compile_plain (p : string) :
  plain p = true -> compile p = Some (literal_ops p).
Proof.
  induction p as [|c p IH]; [reflexivity|].
  intros Hp. simpl in Hp. apply andb_true_iff in Hp as [Hc Hp].
  apply negb_true_iff in Hc. destruct (special_cases c Hc) as [Hatom _].
  specialize (IH Hp). simpl compile. rewrite Hatom.
  destruct p as [|q p']; [reflexivity|].
  simpl in Hp. apply andb_true_iff in Hp as [Hq _].
  apply negb_true_iff in Hq. destruct (special_cases q Hq) as [_ Hquant].
  rewrite Hquant, IH. reflexivity.
Qed.

Lemma plain_app (p q : string) :
  plain (p +:+ q) = plain p && plain q.
Proof.
  induction p as [|c p IH]; [reflexivity|].
  rewrite append_cons. simpl. rewrite IH. by rewrite andb_assoc.
Qed.

Lemma plain_mention_token (bot_user_id : string) :
  plain bot_user_id = true -> plain (mention_token bot_user_id) = true.
Proof.
  intros H. unfold mention_token.
  change ("<@" +:+ bot_user_id +:+ ">")
    with (String "<" (String "@" (bot_user_id +:+ ">"))).
  simpl. rewrite plain_app, H. reflexivity.
Qed.

Lemma sre_match_literal (tok start : string) (mk : marks) (s : string) :
  sre_match (literal_ops tok) false start mk s
  = if startswith tok s
    then Some (mk, slice_from (String.length tok) s) else None.
Proof.
  revert s. induction tok as [|a tok IH]; intros s.
  - simpl. by destruct s.
  - destruct s as [|b s]; [reflexivity|]. simpl.
    destruct (Ascii.eqb a b); [apply IH|reflexivity].
Qed.

Lemma startswith_length (tok s : string) :
  startswith tok s = true ->
  String.length s - String.length (slice_from (String.length tok) s)
  = String.length tok.
Proof.
  revert s. induction tok as [|a tok IH]; intros s H.
  - simpl. destruct s; simpl; lia.
  - destruct s as [|b s]; [discriminate|]. simpl in H.
    apply andb_true_iff in H as [_ H]. specialize (IH s H).
    assert (String.length (slice_from (String.length tok) s)
            <= String.length s) as Hle.
    { clear. revert s. induction (String.length tok) as [|n IHn]; intros s.
      - destruct s; simpl; lia.
      - destruct s as [|c s]; simpl; [lia|]. specialize (IHn s). lia. }
    simpl. lia.
Qed.

Lemma match_len_literal (tok s : string) :
  match_len (literal_ops tok) false s
  = if startswith tok s then Some (String.length tok) else None.
Proof.
  unfold match_len, match_at. rewrite sre_match_literal.
  destruct (startswith tok s) eqn:H; [|reflexivity].
  by rewrite startswith_length.
Qed.

(** [re.sub] with a pattern of literal characters deletes the occurrences of
    that text. *)
Lemma sub_empty_from_literal (tok : string) (skip : nat) (s : string) :
  tok <> "" ->
  sub_empty_from (literal_ops tok) skip s = remove_from tok skip s.
Proof.
  intros Htok. revert skip. induction s as [|c s IH]; intros skip.
  - reflexivity.
  - destruct skip as [|k]; [|apply IH].
    cbn [sub_empty_from remove_from]. rewrite match_len_literal.
    destruct (startswith tok (String c s)).
    + destruct tok as [|a tok]; [done|]. cbn [String.length].
      rewrite Nat.sub_1_r. cbn [Nat.pred]. apply IH.
    + by rewrite IH.
Qed.

(** With a pattern of literal characters the three steps of
    [extract_prompt_from_message] are: delete the token, make each run of
    white space one space, trim. *)
Lemma extract_prompt_literal (text bot_user_id : string) :
  plain bot_user_id = true ->
  extract_prompt_from_message text bot_user_id
  = Some (trim (collapse_ws
                  (remove_token (mention_token bot_user_id) text))).
Proof.
  intros Hplain. unfold extract_prompt_from_message.
  fold (mention_token bot_user_id).
  rewrite (compile_plain _ (plain_mention_token _ Hplain)).
  unfold sub_empty. rewrite sub_empty_from_literal by done.
  by rewrite strip_join_split.
Qed.

(** C5, as the code has it: for an identifier without pattern characters,
    the prompt is the text with the occurrences of the mention token
    deleted (each found from the left, in one pass, in the text as it came
    in), each run of white space then made one space, and the ends
    trimmed. *)
Theorem extract_prompt_plain_id (text bot_user_id : string) :
  plain bot_user_id = true ->
  extract_prompt_from_message text bot_user_id
  = Some (prompt_of text bot_user_id).
Proof. apply extract_prompt_literal. Qed.

Lemma extract_prompt_U123 :
  extract_prompt_from_message "  <@U123>   draw me as a kid  " "U123"
  = Some "draw me as a kid".
Proof.
  rewrite (extract_prompt_plain_id "  <@U123>   draw me as a kid  " "U123");
    reflexivity.
Defined.

(** One pass: a token that the deletion puts together stays. *)
Example extract_prompt_one_pass :
  extract_prompt_from_message "<@<@U123>U123> hi" "U123" = Some "<@U123> hi".
Proof. reflexivity. Qed.

(** C5, as the specification has it, fails for the identifier [+]: the
    pattern [<@+>] asks for a run of [@], and the mention token stays in the
    prompt. *)
Lemma extract_prompt_keeps_mention :
  extract_prompt_from_message "<@+> draw me" "+" = Some "<@+> draw me"
  /\ contains (mention_token "+") "<@+> draw me" = true
  /\ prompt_of "<@+> draw me" "+" = "draw me"
  /\ extract_prompt_from_message "<@+> draw me" "+"
     <> Some (prompt_of "<@+> draw me" "+").
Proof. repeat split. discriminate. Qed.

(** ** The view, for every body *)

(** C8, as the code has it: a body that is not a JSON object ends the
    request in an [AttributeError]; a body that is an object is answered
    with the challenge for [url_verification] and with the plain
    acknowledgment for a type that is neither [url_verification] nor
    [event_callback]; an [event_callback], the id of the bot being free of
    pattern characters, is answered with the plain acknowledgment when it is
    [answered] (the id is hashable and, if the id is new, the event is an
    object and, for a mention, the text is a string and the usage post, if
    made, returns), and ends in an exception when it is not. *)
Theorem slack_events_object_body (E : env) (data : json) (s : gset pykey) :
  (match data with JObj _ => False | _ => True end ->
   slack_events E data s = Outcome (Raised no_attribute_get) s [])
  /\ forall top, data = JObj top ->
     (eq_str (get top "type") "url_verification" = true ->
      slack_events E data s
      = Outcome (Responded (JObj [("challenge", get top "challenge")])) s [])
     /\ (eq_str (get top "type") "url_verification" = false ->
         eq_str (get top "type") "event_callback" = false ->
         slack_events E data s = Outcome (Responded status_ok) s [])
     /\ (eq_str (get top "type") "event_callback" = true ->
         plain (resolve_bot_user_id E) = true ->
         (answered E top s = true ->
          o_result (slack_events E data s) = Responded status_ok)
         /\ (answered E top s = false ->
             exists e, o_result (slack_events E data s) = Raised e)).
Proof.
  split; [by destruct data|].
  intros top ->. split; [|split].
  - intros H. unfold slack_events. by rewrite H.
  - intros H1 H2. unfold slack_events. by rewrite H1, H2.
  - intros Htype Hplain. unfold answered, slack_events.
    rewrite (event_callback_not_verification _ Htype), Htype.
    destruct (hashable (get top "event_id")) as [key|];
      [|split; [discriminate|intros _; by eexists]].
    destruct (seen key s); [split; [reflexivity|discriminate]|]. simpl orb.
    unfold handle_event.
    destruct (get_or top "event" (JObj [])) as [| | | | |ev];
      try (split; [discriminate|intros _; by eexists]).
    destruct (eq_str (get ev "type") "app_mention");
      [|split; [reflexivity|discriminate]].
    simpl orb.
    assert (compile ("<@" +:+ resolve_bot_user_id E +:+ ">")
            = Some (literal_ops (mention_token (resolve_bot_user_id E))))
      as Hcompile by apply (compile_plain _ (plain_mention_token _ Hplain)).
    destruct (get_or ev "text" (JStr "")) as [| | |text| |];
      try (rewrite Hcompile; split; [discriminate|intros _; by eexists]).
    rewrite (extract_prompt_literal _ _ Hplain).
    fold (prompt_of text (resolve_bot_user_id E)).
    destruct (String.eqb (prompt_of text (resolve_bot_user_id E)) "");
      [|split; [reflexivity|discriminate]].
    simpl negb. simpl orb.
    unfold post_returns, send_slack_message, print_response_error, finish,
      bind, emit, ret, raise.
    destruct (chat_postMessage _ _ _ _) as [e|];
      [|split; [reflexivity|discriminate]].
    destruct (is_slack_api_error e);
      [|split; [discriminate|intros _; by eexists]].
    destruct (response_error E e);
      split; first [reflexivity | discriminate | intros _; by eexists].
Qed.

Lemma slack_events_object_body_E1 :
  o_result (slack_events calm_env (JObj replayed_body) ∅)
  = Responded status_ok.
Proof.
  exact (proj1 (proj2 (proj2
    (proj2 (slack_events_object_body calm_env (JObj replayed_body) ∅)
       replayed_body eq_refl)) eq_refl eq_refl) eq_refl).
Defined.

(** C8, as the specification has it, fails on the well-formed body [[]]:
    [data.get] raises and the request ends in a 500. *)
Lemma array_body_is_an_error :
  slack_events calm_env (JArr []) ∅ = Outcome (Raised no_attribute_get) ∅ []
  /\ http_status (o_result (slack_events calm_env (JArr []) ∅)) = Some 500%Z
  /\ ~ (forall E data s,
          http_status (o_result (slack_events E data s)) = Some 200%Z).
Proof.
  split; [reflexivity|]. split; [reflexivity|].
  intros H. specialize (H calm_env (JArr []) ∅). discriminate H.
Qed.

(** ** The age pattern *)

Lemma digit_facts (c : ascii) :
  isdigit c = true -> is_sep c = false /\ Ascii.eqb "y" c = false.
Proof.
  destruct c as [[] [] [] [] [] [] [] []]; vm_compute; intros H;
    first [discriminate H | split; reflexivity].
Qed.

Lemma sep_facts (c : ascii) :
  is_sep c = true -> Ascii.eqb "y" c = false /\ Ascii.eqb "o" c = false.
Proof.
  destruct c as [[] [] [] [] [] [] [] []]; vm_compute; intros H;
    first [discriminate H | split; reflexivity].
Qed.

Lemma charset_match_sep (c : ascii) :
  charset_match (In [ItemLiteral "-"; ItemSpace]) c = is_sep c.
Proof.
  unfold is_sep. simpl. rewrite orb_false_r. by rewrite Ascii.eqb_sym.
Qed.

Lemma charset_match_digit (c : ascii) :
  charset_match (In [ItemDigit]) c = isdigit c.
Proof. simpl. apply orb_false_r. Qed.

Lemma sre_match_literal_then (w : string) (pc : list op) (ma : bool)
    (start : string) (mk : marks) (s : string) :
  sre_match (literal_ops w ++ pc) ma start mk s
  = if startswith w s
    then sre_match pc ma start mk (slice_from (String.length w) s)
    else None.
Proof.
  revert s. induction w as [|a w IH]; intros s.
  - simpl. by destruct s.
  - destruct s as [|b s]; [reflexivity|]. simpl.
    destruct (Ascii.eqb a b); [apply IH|reflexivity].
Qed.

(** The optional separator: when what follows cannot start with a
    separator, there is nothing to go back on. *)
Lemma repeat_one_opt_sep {R : Type} (k : string -> option R) (s : string) :
  (forall c u, is_sep c = true -> k (String c u) = None) ->
  repeat_one (In [ItemLiteral "-"; ItemSpace]) 0 (Some 1) s k = k (skip_sep s).
Proof.
  intros Hk. destruct s as [|c s]; [reflexivity|].
  cbn [repeat_one skip_sep]. rewrite charset_match_sep.
  destruct (is_sep c) eqn:Hc; [|reflexivity].
  cbn [hi_allows andb hi_pred Nat.pred Nat.eqb].
  assert (repeat_one (In [ItemLiteral "-"; ItemSpace]) 0 (Some 0) s k = k s)
    as ->.
  { destruct s as [|d s]; [reflexivity|]. cbn [repeat_one].
    rewrite andb_false_r. reflexivity. }
  rewrite (Hk c s Hc). by destruct (k s).
Qed.

(** The digits: when what follows cannot start with a digit, the longest run
    is the only one to try. *)
Lemma repeat_one_digits {R : Type} (k : string -> option R) (lo : nat)
    (s : string) :
  (forall c u, isdigit c = true -> k (String c u) = None) ->
  repeat_one (In [ItemDigit]) lo None s k
  = if Nat.leb lo (String.length (fst (span_digits s)))
    then k (snd (span_digits s)) else None.
Proof.
  intros Hk. revert lo. induction s as [|c s IH]; intros lo.
  - simpl. by destruct lo.
  - cbn [repeat_one span_digits]. rewrite charset_match_digit.
    destruct (isdigit c) eqn:Hc.
    + cbn [hi_allows andb hi_pred]. rewrite IH, (Hk c s Hc).
      destruct (span_digits s) as [ds rest]. cbn [fst snd String.length].
      destruct lo as [|lo]; cbn [Nat.pred Nat.leb Nat.eqb].
      * by destruct (k rest).
      * by destruct (Nat.leb lo (String.length ds)); [destruct (k rest)|].
    + cbn [andb fst snd String.length]. by destruct lo.
Qed.

Lemma sre_match_after_number (start : string) (mk : marks) (s : string) :
  sre_match after_number false start mk s
  = match expect "year" (skip_sep s) with
    | Some rest =>
        match expect "old" (skip_sep rest) with
        | Some rest' => Some (mk, rest')
        | None => None
        end
    | None => None
    end.
Proof.
  unfold after_number, opt_sep. cbn [sre_match].
  assert (forall s', sre_match (opt_sep :: literal_ops "old") false start mk s'
            = match expect "old" (skip_sep s') with
              | Some rest' => Some (mk, rest')
              | None => None
              end) as Hold.
  { intros s'. unfold opt_sep. cbn [sre_match]. rewrite repeat_one_opt_sep.
    - rewrite sre_match_literal. unfold expect.
      by destruct (startswith "old" (skip_sep s')).
    - intros c u Hc. cbn [literal_ops sre_match charset_match].
      by rewrite (proj2 (sep_facts c Hc)). }
  rewrite repeat_one_opt_sep.
  - rewrite sre_match_literal_then. unfold expect.
    destruct (startswith "year" (skip_sep s)); [apply Hold|reflexivity].
  - intros c u Hc. cbn [literal_ops app sre_match charset_match].
    by rewrite (proj1 (sep_facts c Hc)).
Qed.

Lemma span_digits_slice (s : string) :
  slice_to (String.length s - String.length (snd (span_digits s))) s
  = fst (span_digits s).
Proof.
  induction s as [|c s IH]; [reflexivity|]. cbn [span_digits].
  destruct (isdigit c).
  - destruct (span_digits s) as [ds rest] eqn:Hspan. cbn [fst snd] in *.
    assert (String.length rest <= String.length s) as Hle.
    { clear IH. revert ds rest Hspan. induction s as [|d s IHs];
        intros ds rest Hspan; simpl in Hspan.
      - injection Hspan as <- <-. simpl. lia.
      - destruct (isdigit d).
        + destruct (span_digits s) as [ds' rest'].
          injection Hspan as <- <-. specialize (IHs ds' rest' eq_refl).
          simpl. lia.
        + injection Hspan as <- <-. lia. }
    cbn [String.length]. replace (S (String.length s) - String.length rest)
      with (S (String.length s - String.length rest)) by lia.
    cbn [slice_to]. by rewrite IH.
  - cbn [fst snd]. by rewrite Nat.sub_diag.
Qed.

(** One attempt of the age pattern at the start of [s] is [age_phrase]. *)
Lemma match_at_age_pattern (s : string) :
  match match_at age_pattern false s with
  | Some (mk, rest) => Some (default "5" (group (MatchObj mk rest) 1))
  | None => None
  end = age_phrase s.
Proof.
  unfold match_at, age_phrase.
  change age_pattern with
    (Mark 0 :: MaxRepeat 1 None (In [ItemDigit]) :: Mark 1 :: after_number).
  cbn [sre_match]. rewrite repeat_one_digits.
  - pose proof (span_digits_slice s) as Hslice.
    destruct (span_digits s) as [ds rest]. cbn [fst snd] in *.
    destruct ds as [|d ds]; [reflexivity|]. cbn [String.length Nat.leb String.eqb].
    rewrite sre_match_after_number.
    destruct (expect "year" (skip_sep rest)) as [rest'|]; [|reflexivity].
    destruct (expect "old" (skip_sep rest')) as [rest''|]; [|reflexivity].
    unfold group. cbn. rewrite Hslice. reflexivity.
  - intros c u Hc. cbn [sre_match]. rewrite sre_match_after_number.
    destruct (digit_facts c Hc) as [Hsep Hy]. cbn [skip_sep]. rewrite Hsep.
    unfold expect. cbn [startswith]. by rewrite Hy.
Qed.

Lemma search_age_pattern (s : string) :
  match search age_pattern s with
  | Some m => default "5" (group m 1)
  | None => "5"
  end = default "5" (first_age_phrase s).
Proof.
  induction s as [|c s IH].
  - cbn [search first_age_phrase]. rewrite <- match_at_age_pattern.
    by destruct (match_at age_pattern false "") as [[mk rest]|].
  - cbn [search first_age_phrase]. rewrite <- match_at_age_pattern.
    destruct (match_at age_pattern false (String c s)) as [[mk rest]|];
      [reflexivity|exact IH].
Qed.

(** C2, as the code has it: the age is the number of the first phrase
    "N year old" of the lower-cased prompt, where at most one hyphen or
    white-space character may stand before and after "year" (so
    "7-year-old", "7 year old" and "7yearold", but not "3 years old"), and
    the fixed text "5" when there is no such phrase. *)
Theorem age_is_first_age_phrase (user_prompt : string) :
  age user_prompt = default "5" (first_age_phrase (lower user_prompt)).
Proof.
  unfold age. rewrite <- search_age_pattern.
  by destruct (search age_pattern (lower user_prompt)).
Qed.

Example age_7_year_old : age "my 7-year-old self at a park" = "7".
Proof. reflexivity. Qed.

Example age_default : age "just me at a park" = "5".
Proof. reflexivity. Qed.

Example age_upper_case : age "Me as a 12 YEAR OLD" = "12".
Proof. reflexivity. Qed.

(** C2, as the specification has it, fails on the plural: "3 years old"
    gives the fallback, not 3. *)
Lemma age_plural_years :
  age "3 years old at the beach" = "5"
  /\ age "3 years old at the beach" <> "3".
Proof. split; [reflexivity|discriminate]. Qed.

(** ** A mention that is not the bot's *)

Lemma id_char_facts (c : ascii) :
  id_char c = true ->
  special c = false /\ isspace c = false
  /\ Ascii.eqb "<" c = false /\ Ascii.eqb ">" c = false.
Proof.
  destruct c as [[] [] [] [] [] [] [] []]; vm_compute; intros H;
    first [discriminate H | repeat split].
Qed.

Lemma id_chars_plain (s : string) : id_chars s = true -> plain s = true.
Proof.
  induction s as [|c s IH]; [reflexivity|]. simpl.
  intros H. apply andb_true_iff in H as [Hc Hs].
  destruct (id_char_facts c Hc) as (-> & _). by rewrite IH.
Qed.

Lemma startswith_app (tok rest : string) : startswith tok (tok +:+ rest) = true.
Proof.
  induction tok as [|a tok IH]; [reflexivity|].
  rewrite append_cons. simpl. by rewrite Ascii.eqb_refl.
Qed.

Lemma startswith_split (tok s : string) :
  startswith tok s = true -> exists rest, s = tok +:+ rest.
Proof.
  revert s. induction tok as [|a tok IH]; intros s H.
  - by exists s.
  - destruct s as [|b s]; [discriminate|]. simpl in H.
    apply andb_true_iff in H as [Hab H]. apply Ascii.eqb_eq in Hab as ->.
    destruct (IH s H) as [rest ->]. by exists rest.
Qed.

Lemma contains_cons (tok : string) (c : ascii) (s : string) :
  contains tok s = true -> contains tok (String c s) = true.
Proof. intros H. cbn [contains]. rewrite H. apply orb_true_r. Qed.

Lemma contains_startswith (tok s : string) :
  startswith tok s = true -> contains tok s = true.
Proof. intros H. destruct s; cbn [contains]; by rewrite H. Qed.

Lemma contains_split (tok s : string) :
  contains tok s = true -> exists pre rest, s = pre +:+ tok +:+ rest.
Proof.
  induction s as [|c s IH]; cbn [contains]; intros H.
  - rewrite orb_false_r in H. destruct (startswith_split _ _ H) as [rest ->].
    by exists "", rest.
  - apply orb_true_iff in H as [H|H].
    + destruct (startswith_split _ _ H) as [rest ->]. by exists "", rest.
    + destruct (IH H) as (pre & rest & ->). by exists (String c pre), rest.
Qed.

Lemma contains_empty (tok : string) :
  tok <> "" -> contains tok "" = false.
Proof. by destruct tok. Qed.

Lemma startswith_collapse_ws (tok s : string) :
  no_space tok = true -> startswith tok s = true ->
  startswith tok (collapse_ws s) = true.
Proof.
  revert s. induction tok as [|a tok IH]; intros s Hns H; [reflexivity|].
  destruct s as [|b s]; [discriminate|]. simpl in Hns, H.
  apply andb_true_iff in Hns as [Ha Hns]. apply negb_true_iff in Ha.
  apply andb_true_iff in H as [Hab H]. apply Ascii.eqb_eq in Hab as <-.
  rewrite collapse_ws_word by done. cbn [startswith].
  rewrite Ascii.eqb_refl. by apply IH.
Qed.

Lemma contains_nil (s : string) : contains "" s = true.
Proof. by destruct s. Qed.

Lemma contains_lstrip (tok s : string) :
  no_space tok = true -> contains tok s = true ->
  contains tok (lstrip s) = true.
Proof.
  intros Hns. induction s as [|c s IH]; [done|].
  intros H. cbn [lstrip]. destruct (isspace c) eqn:Hc; [|exact H].
  cbn [contains] in H. apply orb_true_iff in H as [H|H]; [|by apply IH].
  destruct tok as [|a tok]; [apply contains_nil|].
  simpl in Hns, H. apply andb_true_iff in H as [Hab _].
  apply Ascii.eqb_eq in Hab as ->. by rewrite Hc in Hns.
Qed.

Lemma contains_collapse_ws (tok s : string) :
  no_space tok = true -> contains tok s = true ->
  contains tok (collapse_ws s) = true.
Proof.
  intros Hns. induction s as [|c s IH]; [done|].
  cbn [contains]. intros H. apply orb_true_iff in H as [H|H].
  - apply contains_startswith. by apply startswith_collapse_ws.
  - specialize (IH H). destruct (isspace c) eqn:Hc.
    + rewrite collapse_ws_space, <- lstrip_collapse_ws by done.
      by apply contains_cons, contains_lstrip.
    + rewrite collapse_ws_word by done. by apply contains_cons.
Qed.

Lemma startswith_rstrip (tok s : string) :
  no_space tok = true -> startswith tok s = true ->
  startswith tok (rstrip s) = true.
Proof.
  revert s. induction tok as [|a tok IH]; intros s Hns H; [reflexivity|].
  destruct s as [|b s]; [discriminate|]. simpl in Hns, H.
  apply andb_true_iff in Hns as [Ha Hns]. apply negb_true_iff in Ha.
  apply andb_true_iff in H as [Hab H]. apply Ascii.eqb_eq in Hab as <-.
  rewrite rstrip_cons_word by done. cbn [startswith].
  rewrite Ascii.eqb_refl. by apply IH.
Qed.

Lemma contains_rstrip (tok s : string) :
  no_space tok = true -> contains tok s = true ->
  contains tok (rstrip s) = true.
Proof.
  intros Hns. induction s as [|c s IH]; [done|].
  cbn [contains]. intros H. apply orb_true_iff in H as [H|H].
  - apply contains_startswith. by apply startswith_rstrip.
  - specialize (IH H). cbn [rstrip].
    destruct (rstrip s) as [|a r] eqn:Hr; [|by apply contains_cons].
    destruct tok as [|b tok]; [apply contains_nil|discriminate].
Qed.

Lemma contains_trim_collapse_ws (tok s : string) :
  no_space tok = true -> contains tok s = true ->
  contains tok (trim (collapse_ws s)) = true.
Proof.
  intros Hns H. unfold trim, strip.
  by apply contains_rstrip, contains_lstrip, contains_collapse_ws.
Qed.

(** Deleting [<@>] copies a text that has no [<] in it. *)
Lemma remove_from_no_lt (w rest : string) :
  no_lt w = true ->
  remove_from "<@>" 0 (w +:+ rest) = w +:+ remove_from "<@>" 0 rest.
Proof.
  induction w as [|a w IH]; intros Hw; [reflexivity|].
  cbn [no_lt] in Hw. apply andb_true_iff in Hw as [Ha Hw].
  apply negb_true_iff in Ha.
  rewrite !append_cons. cbn [remove_from startswith]. rewrite Ha.
  cbn [andb]. by rewrite IH.
Qed.

Lemma id_chars_no_lt (s : string) :
  id_chars s = true -> no_lt (s +:+ ">") = true.
Proof.
  induction s as [|c s IH]; [reflexivity|]. cbn [id_chars].
  intros H. apply andb_true_iff in H as [Hc Hs].
  rewrite append_cons. cbn [no_lt].
  destruct (id_char_facts c Hc) as (_ & _ & -> & _). by rewrite IH.
Qed.

Lemma id_chars_no_space (s : string) :
  id_chars s = true -> no_space (mention_token s) = true.
Proof.
  intros H. unfold mention_token.
  change ("<@" +:+ s +:+ ">") with (String "<" (String "@" (s +:+ ">"))).
  cbn [no_space]. change (negb (isspace "<")) with true.
  change (negb (isspace "@")) with true. cbn [andb].
  induction s as [|c s IH]; [reflexivity|]. cbn [id_chars] in H.
  apply andb_true_iff in H as [Hc Hs]. rewrite append_cons. cbn [no_space].
  destruct (id_char_facts c Hc) as (_ & -> & _). by rewrite IH.
Qed.

(** Deleting [<@>] copies the mention of a user. *)
Lemma remove_from_mention (bot_user_id rest : string) :
  slack_id bot_user_id = true ->
  remove_from "<@>" 0 (mention_token bot_user_id +:+ rest)
  = mention_token bot_user_id +:+ remove_from "<@>" 0 rest.
Proof.
  unfold slack_id, mention_token. intros H.
  apply andb_true_iff in H as [Hne Hid].
  destruct bot_user_id as [|i0 id']; [discriminate|].
  change ("<@" +:+ String i0 id' +:+ ">")
    with (String "<" (String "@" (String i0 id' +:+ ">"))).
  rewrite !append_cons. cbn [remove_from startswith].
  rewrite Ascii.eqb_refl. cbn [andb].
  cbn [id_chars] in Hid. apply andb_true_iff in Hid as [Hi0 Hid'].
  destruct (id_char_facts i0 Hi0) as (_ & _ & Hlt & Hgt).
  change (Ascii.eqb "@" "@") with true. rewrite Hgt. cbn [andb].
  change (Ascii.eqb "<" "@") with false. rewrite Hlt. cbn [andb].
  rewrite <- append_cons.
  assert (no_lt (id' +:+ ">") = true) as Hno by by apply id_chars_no_lt.
  rewrite (remove_from_no_lt (id' +:+ ">") rest Hno).
  reflexivity.
Qed.

(** Deleting [<@>] from a text leaves the mention of a user in it. *)
Lemma contains_remove_empty_mention (bot_user_id pre rest : string)
    (skip : nat) :
  slack_id bot_user_id = true ->
  skip <= String.length pre ->
  contains (mention_token bot_user_id)
    (remove_from "<@>" skip (pre +:+ mention_token bot_user_id +:+ rest))
  = true.
Proof.
  intros Hid. revert skip. induction pre as [|c pre IH]; intros skip Hskip.
  - cbn [String.length] in Hskip. assert (skip = 0) as -> by lia.
    rewrite append_nil, remove_from_mention by done.
    apply contains_startswith, startswith_app.
  - rewrite append_cons. cbn [String.length] in Hskip.
    destruct skip as [|k]; [|cbn [remove_from]; apply IH; lia].
    cbn [remove_from].
    destruct (startswith "<@>" (String c (pre +:+ mention_token bot_user_id +:+ rest)))
      eqn:Hs; [|apply contains_cons, IH; lia].
    change (String.length "<@>" - 1) with 2. apply IH.
    cbn [startswith] in Hs. apply andb_true_iff in Hs as [_ Hs].
    unfold mention_token in Hs.
    destruct pre as [|x [|y pre]]; cbn [String.length]; [| |lia].
    + rewrite append_nil in Hs. discriminate Hs.
    + rewrite append_cons, append_nil in Hs. cbn [startswith] in Hs.
      apply andb_true_iff in Hs as [_ Hs]. discriminate Hs.
Qed.

Lemma contains_remove_token_empty (bot_user_id text : string) :
  slack_id bot_user_id = true ->
  contains (mention_token bot_user_id) text = true ->
  contains (mention_token bot_user_id) (remove_token "<@>" text) = true.
Proof.
  intros Hid H. destruct (contains_split _ _ H) as (pre & rest & ->).
  unfold remove_token. apply contains_remove_empty_mention; [done|lia].
Qed.

(** C10: when [auth.test] fails the bot's id is taken to be the empty
    string, the token deleted from the text is [<@>], and a new mention whose
    prompt is not empty is dispatched with that prompt, the event is not
    refused; a mention [<@ID>] of the text, [ID] letters and digits, is still
    in the prompt. *)
Theorem failed_auth_keeps_mention (E : env) (e : pyexc)
    (top ev : list (string * json)) (s : gset pykey) (key : pykey)
    (text : string) :
  auth_test E = inl e ->
  eq_str (get top "type") "event_callback" = true ->
  hashable (get top "event_id") = Some key ->
  key ∉ s ->
  get_or top "event" (JObj []) = JObj ev ->
  eq_str (get ev "type") "app_mention" = true ->
  get_or ev "text" (JStr "") = JStr text ->
  let user_prompt := trim (collapse_ws (remove_token "<@>" text)) in
  resolve_bot_user_id E = ""
  /\ extract_prompt_from_message text (resolve_bot_user_id E)
     = Some user_prompt
  /\ (user_prompt <> "" ->
      slack_events E (JObj top) s
      = Outcome (Responded status_ok) (mark key s)
          [CallAuthTest;
           ThreadStart (get ev "channel")
             (py_or (get ev "thread_ts") (get ev "ts")) user_prompt])
  /\ (forall user_id,
        slack_id user_id = true ->
        contains (mention_token user_id) text = true ->
        contains (mention_token user_id) user_prompt = true).
Proof.
  intros Hauth Htype Hkey Hnew Hev Hmention Htext user_prompt.
  assert (resolve_bot_user_id E = "") as Hid
    by (unfold resolve_bot_user_id; by rewrite Hauth).
  assert (extract_prompt_from_message text (resolve_bot_user_id E)
          = Some user_prompt) as Hprompt
    by (rewrite Hid; by apply (extract_prompt_literal text "")).
  split; [exact Hid|]. split; [exact Hprompt|]. split.
  - intros Hne. rewrite (slack_events_fresh E top s key Htype Hkey Hnew), Hev.
    unfold handle_event. rewrite Hmention, Htext, Hprompt.
    by rewrite (eqb_empty_false _ Hne).
  - intros user_id Huser Hin. subst user_prompt.
    apply contains_trim_collapse_ws.
    + apply id_chars_no_space. unfold slack_id in Huser.
      by apply andb_true_iff in Huser as [_ ?].
    + by apply contains_remove_token_empty.
Qed.

Lemma failed_auth_keeps_mention_U123 :
  slack_events no_auth_env (JObj replayed_body) ∅
  = Outcome (Responded status_ok) (mark (KStr "E1") ∅)
      [CallAuthTest;
       ThreadStart (JStr "C1") (JStr "T1") "<@U123> 3 year old at the beach"].
Proof.
  refine (proj1 (proj2 (proj2 (failed_auth_keeps_mention no_auth_env
    (PyExc SlackApiError "invalid_auth") replayed_body replayed_event ∅
    (KStr "E1") "<@U123> 3 year old at the beach" _ _ _ _ _ _ _))) _);
    try reflexivity.
  - apply not_elem_of_empty.
  - discriminate.
Defined.

(** ** The age phrase, spelled out *)

Lemma span_digits_spec (s : string) :
  s = fst (span_digits s) +:+ snd (span_digits s)
  /\ digits (fst (span_digits s)) = true.
Proof.
  induction s as [|c s [IHs IHd]]; [done|]. cbn [span_digits].
  destruct (isdigit c) eqn:Hc; [|done].
  destruct (span_digits s) as [ds rest]. cbn [fst snd digits] in *.
  rewrite append_cons, <- IHs, Hc. done.
Qed.

Lemma span_digits_app (ds t : string) :
  digits ds = true ->
  match t with String c _ => isdigit c = false | EmptyString => True end ->
  span_digits (ds +:+ t) = (ds, t).
Proof.
  intros Hds Ht. induction ds as [|d ds IH].
  - rewrite append_nil. destruct t as [|c t]; [done|].
    cbn [span_digits]. by rewrite Ht.
  - cbn [digits] in Hds. apply andb_true_iff in Hds as [Hd Hds].
    rewrite append_cons. cbn [span_digits]. by rewrite Hd, IH.
Qed.

Lemma slice_from_app (w rest : string) :
  slice_from (String.length w) (w +:+ rest) = rest.
Proof.
  induction w as [|a w IH]; [by destruct rest|].
  rewrite append_cons. exact IH.
Qed.

Lemma expect_app (w rest : string) : expect w (w +:+ rest) = Some rest.
Proof. unfold expect. by rewrite startswith_app, slice_from_app. Qed.

Lemma expect_split (w s rest : string) :
  expect w s = Some rest -> s = w +:+ rest.
Proof.
  unfold expect. destruct (startswith w s) eqn:H; [|discriminate].
  destruct (startswith_split _ _ H) as [rest' ->].
  rewrite slice_from_app. by intros [= ->].
Qed.

Lemma skip_sep_split (s : string) :
  exists sep, optional_sep sep = true /\ s = sep +:+ skip_sep s.
Proof.
  destruct s as [|c s]; [by exists ""|]. cbn [skip_sep].
  destruct (is_sep c) eqn:Hc.
  - exists (String c ""). split; [exact Hc|reflexivity].
  - by exists "".
Qed.

Lemma skip_sep_app (sep : string) (c : ascii) (rest : string) :
  optional_sep sep = true -> is_sep c = false ->
  skip_sep (sep +:+ String c rest) = String c rest.
Proof.
  intros Hsep Hc. destruct sep as [|a [|b sep]]; [| |discriminate].
  - rewrite append_nil. cbn [skip_sep]. by rewrite Hc.
  - rewrite append_cons, append_nil. cbn [skip_sep optional_sep] in *.
    by rewrite Hsep.
Qed.

(** [age_phrase s] is [Some N] exactly when [s] reads: a number [N], at
    most one separator, "year", at most one separator, "old", anything. *)
Lemma age_phrase_iff (s ds : string) :
  age_phrase s = Some ds <->
  ds <> "" /\ digits ds = true /\
  exists sep1 sep2 rest,
    optional_sep sep1 = true /\ optional_sep sep2 = true /\
    s = ds +:+ sep1 +:+ "year" +:+ sep2 +:+ "old" +:+ rest.
Proof.
  split.
  - unfold age_phrase. destruct (span_digits_spec s) as [Hs Hd].
    destruct (span_digits s) as [ds' t]. cbn [fst snd] in *.
    destruct (String.eqb ds' "") eqn:Hne; [discriminate|].
    destruct (expect "year" (skip_sep t)) as [t1|] eqn:Hyear; [|discriminate].
    destruct (expect "old" (skip_sep t1)) as [t2|] eqn:Hold; [|discriminate].
    intros [= <-]. apply String.eqb_neq in Hne. split; [done|]. split; [done|].
    destruct (skip_sep_split t) as (sep1 & Hsep1 & Ht).
    destruct (skip_sep_split t1) as (sep2 & Hsep2 & Ht1).
    exists sep1, sep2, t2. split; [done|]. split; [done|].
    apply expect_split in Hyear, Hold.
    rewrite Hs, Ht, Hyear, Ht1, Hold. reflexivity.
  - intros (Hne & Hd & sep1 & sep2 & rest & Hsep1 & Hsep2 & ->).
    unfold age_phrase. rewrite span_digits_app; [|done|].
    + rewrite (eqb_empty_false _ Hne).
      change ("year" +:+ sep2 +:+ "old" +:+ rest)
        with (String "y" ("ear" +:+ sep2 +:+ "old" +:+ rest)).
      rewrite skip_sep_app by done.
      change (String "y" ("ear" +:+ sep2 +:+ "old" +:+ rest))
        with ("year" +:+ sep2 +:+ "old" +:+ rest).
      rewrite expect_app.
      change ("old" +:+ rest) with (String "o" ("ld" +:+ rest)).
      rewrite skip_sep_app by done.
      change (String "o" ("ld" +:+ rest)) with ("old" +:+ rest).
      by rewrite expect_app.
    + destruct sep1 as [|a [|b sep1]]; [done| |discriminate].
      rewrite append_cons. cbn [optional_sep] in Hsep1.
      destruct (isdigit a) eqn:Ha; [|done].
      destruct (digit_facts a Ha) as [Hsep _]. congruence.
Qed.

Lemma append_split_cons (c : ascii) (s pre t : string) :
  String c s = pre +:+ t ->
  (pre = "" /\ t = String c s) \/ exists pre', pre = String c pre' /\ s = pre' +:+ t.
Proof.
  destruct pre as [|a pre].
  - rewrite append_nil. intros <-. by left.
  - rewrite append_cons. intros [= <- ->]. right. by exists pre.
Qed.

(** [first_age_phrase] finds the leftmost phrase, and misses none. *)
Lemma first_age_phrase_leftmost (s ds : string) :
  first_age_phrase s = Some ds ->
  exists pre t,
    s = pre +:+ t /\ age_phrase t = Some ds /\
    forall pre' t', s = pre' +:+ t' ->
      String.length pre' < String.length pre -> age_phrase t' = None.
Proof.
  induction s as [|c s IH]; cbn [first_age_phrase].
  - destruct (age_phrase "") as [ds'|] eqn:H0; [|discriminate].
    intros [= ->]. exists "", "". repeat split; [done|].
    intros pre' t' _ Hlt. cbn [String.length] in Hlt. lia.
  - destruct (age_phrase (String c s)) as [ds'|] eqn:H0.
    + intros [= ->]. exists "", (String c s). repeat split; [done|].
      intros pre' t' _ Hlt. cbn [String.length] in Hlt. lia.
    + intros H. destruct (IH H) as (pre & t & -> & Ht & Hleft).
      exists (String c pre), t. repeat split; [done|].
      intros pre' t' Heq Hlt.
      apply append_split_cons in Heq as [[-> ->]|(pre'' & -> & Heq)];
        [exact H0|].
      apply (Hleft pre'' t' Heq). cbn [String.length] in Hlt. lia.
Qed.

Lemma first_age_phrase_none (s : string) :
  first_age_phrase s = None ->
  forall pre t, s = pre +:+ t -> age_phrase t = None.
Proof.
  induction s as [|c s IH]; cbn [first_age_phrase].
  - destruct (age_phrase "") eqn:H0; [discriminate|].
    intros _ pre t Heq. destruct pre; [|discriminate].
    rewrite append_nil in Heq. by subst.
  - destruct (age_phrase (String c s)) eqn:H0; [discriminate|].
    intros H pre t Heq.
    apply append_split_cons in Heq as [[-> ->]|(pre' & -> & Heq)];
      [exact H0|by apply (IH H pre')].
Qed.

(** * Further properties of the code *)

Import Props.

(** ** Words *)

Lemma no_space_app (u v : string) :
  no_space (u +:+ v) = no_space u && no_space v.
Proof.
  induction u as [|c u IH]; [reflexivity|].
  rewrite append_cons. cbn [no_space]. by rewrite IH, andb_assoc.
Qed.

Lemma is_word_spec (w : string) :
  is_word w = true <-> w <> "" /\ no_space w = true.
Proof.
  unfold is_word. rewrite andb_true_iff, negb_true_iff, String.eqb_neq. done.
Qed.

(** [split] gives words. *)
Lemma split_from_words (w s : string) :
  no_space w = true -> Forall (fun x => is_word x = true) (split_from w s).
Proof.
  revert w. induction s as [|c s IH]; intros w Hw; cbn [split_from].
  - destruct (String.eqb w "") eqn:He; [constructor|].
    repeat constructor. apply is_word_spec. by apply String.eqb_neq in He.
  - destruct (isspace c) eqn:Hc.
    + destruct (String.eqb w "") eqn:He; [by apply IH|].
      constructor; [|by apply IH].
      apply is_word_spec. by apply String.eqb_neq in He.
    + apply IH. rewrite no_space_app, Hw. cbn [no_space]. by rewrite Hc.
Qed.

Lemma split_from_app_word (acc w rest : string) :
  no_space w = true ->
  split_from acc (w +:+ rest) = split_from (acc +:+ w) rest.
Proof.
  revert acc. induction w as [|c w IH]; intros acc Hw.
  - by rewrite append_nil, append_empty_r.
  - cbn [no_space] in Hw. apply andb_true_iff in Hw as [Hc Hw].
    apply negb_true_iff in Hc. rewrite append_cons. cbn [split_from].
    rewrite Hc, IH by done. by rewrite append_assoc_char.
Qed.

(** [split] undoes [join] on words. *)
Lemma split_join_words (ws : list string) :
  Forall (fun x => is_word x = true) ws -> split (join " " ws) = ws.
Proof.
  unfold split. induction 1 as [|w ws Hw Hws IH]; [reflexivity|].
  apply is_word_spec in Hw as [Hne Hns].
  destruct ws as [|w' ws].
  - cbn [join]. rewrite <- (append_empty_r w) at 1.
    rewrite split_from_app_word by done. rewrite append_nil.
    cbn [split_from]. by rewrite eqb_empty_false.
  - change (join " " (w :: w' :: ws)) with (w +:+ " " +:+ join " " (w' :: ws)).
    rewrite split_from_app_word, append_nil by done.
    change (" " +:+ join " " (w' :: ws))
      with (String " " (join " " (w' :: ws))).
    cbn [split_from]. change (isspace " ") with true. cbv iota.
    by rewrite eqb_empty_false, IH.
Qed.

Lemma single_spaced_word_app (w rest : string) :
  no_space w = true ->
  single_spaced (w +:+ rest) = single_spaced rest.
Proof.
  intros Hw. induction w as [|c w IH]; [reflexivity|].
  cbn [no_space] in Hw. apply andb_true_iff in Hw as [Hc Hw].
  apply negb_true_iff in Hc. rewrite append_cons. cbn [single_spaced].
  rewrite Hc. by apply IH.
Qed.

Lemma word_head (w : string) :
  is_word w = true -> exists c t, w = String c t /\ isspace c = false.
Proof.
  intros H. apply is_word_spec in H as [Hne Hns].
  destruct w as [|c t]; [done|]. cbn [no_space] in Hns.
  apply andb_true_iff in Hns as [Hc _]. apply negb_true_iff in Hc.
  by exists c, t.
Qed.

Lemma join_words_head (w : string) (ws : list string) :
  is_word w = true ->
  exists c t, join " " (w :: ws) = String c t /\ isspace c = false.
Proof.
  intros H. destruct (word_head w H) as (c & t & -> & Hc).
  destruct ws as [|w' ws]; [by exists c, t|].
  change (join " " (String c t :: w' :: ws))
    with (String c t +:+ " " +:+ join " " (w' :: ws)).
  rewrite append_cons. by eexists c, _.
Qed.

Lemma join_words_normalized (ws : list string) :
  Forall (fun x => is_word x = true) ws -> normalized (join " " ws) = true.
Proof.
  intros H. unfold normalized.
  assert (single_spaced (join " " ws) = true) as Hss.
  { induction H as [|w ws Hw Hws IH]; [reflexivity|].
    destruct ws as [|w' ws].
    - cbn [join]. rewrite <- (append_empty_r w).
      rewrite single_spaced_word_app; [done|].
      by apply is_word_spec in Hw as [_ ?].
    - change (join " " (w :: w' :: ws))
        with (w +:+ " " +:+ join " " (w' :: ws)).
      rewrite single_spaced_word_app
        by (by apply is_word_spec in Hw as [_ ?]).
      inversion Hws as [|? ? Hw' _]; subst.
      destruct (join_words_head w' ws Hw') as (c & t & Hj & Hc).
      change (" " +:+ join " " (w' :: ws))
        with (String " " (join " " (w' :: ws))).
      cbn [single_spaced]. rewrite IH, Hj, Hc. reflexivity. }
  rewrite Hss. destruct H as [|w ws Hw _]; [reflexivity|].
  destruct (join_words_head w ws Hw) as (c & t & -> & ->). reflexivity.
Qed.

(** The [strip()] at the end of [extract_prompt_from_message] has nothing
    left to strip. *)
Lemma strip_join_split_id (s : string) :
  strip (join " " (split s)) = join " " (split s).
Proof.
  rewrite strip_join_split. unfold trim, strip, split.
  by rewrite lstrip_collapse_ws, (proj2 (join_split_from s)).
Qed.

(** ** The prompt taken from a message *)

Lemma length_lstrip (s : string) : String.length (lstrip s) <= String.length s.
Proof.
  induction s as [|c s IH]; [done|]. cbn [lstrip].
  destruct (isspace c); cbn [String.length]; lia.
Qed.

Lemma length_rstrip (s : string) : String.length (rstrip s) <= String.length s.
Proof.
  induction s as [|c s IH]; [done|]. cbn [rstrip].
  destruct (rstrip s) as [|a r]; [destruct (isspace c)|];
    cbn [String.length] in *; lia.
Qed.

Lemma length_collapse_ws (s : string) :
  String.length (collapse_ws s) <= String.length s.
Proof.
  induction s as [|c s IH]; [done|]. cbn [collapse_ws].
  destruct (isspace c); [destruct s as [|d s]; [|destruct (isspace d)]|];
    cbn [String.length] in *; lia.
Qed.

Lemma length_join_split (s : string) :
  String.length (join " " (split s)) <= String.length s.
Proof.
  unfold split. rewrite (proj2 (join_split_from s)).
  pose proof (length_rstrip (collapse_ws (lstrip s))).
  pose proof (length_collapse_ws (lstrip s)).
  pose proof (length_lstrip s). lia.
Qed.

Lemma length_sub_empty_from (pc : list op) (skip : nat) (s : string) :
  String.length (sub_empty_from pc skip s) <= String.length s.
Proof.
  revert skip. induction s as [|c s IH]; intros skip; [done|].
  pose proof (IH 0) as IH0.
  cbn [sub_empty_from]. destruct skip as [|k].
  - destruct (match_len pc false (String c s)) as [[|n]|].
    + destruct (match_len pc true (String c s)) as [[|n]|];
        try pose proof (IH n); cbn [String.length]; lia.
    + pose proof (IH n). cbn [String.length]. lia.
    + cbn [String.length]. lia.
  - pose proof (IH k). cbn [String.length]. lia.
Qed.

(** A prompt that comes out of [extract_prompt_from_message] is words
    joined by one space. *)
Lemma extract_prompt_joined (text bot_user_id p : string) :
  extract_prompt_from_message text bot_user_id = Some p ->
  exists ws, Forall (fun x => is_word x = true) ws /\ p = join " " ws.
Proof.
  unfold extract_prompt_from_message.
  destruct (compile _) as [pc|]; [|discriminate].
  rewrite strip_join_split_id. intros [= <-].
  exists (split (sub_empty pc text)). split; [|reflexivity].
  by apply split_from_words.
Qed.

(** X1: whatever the text and the identifier, a prompt that
    [extract_prompt_from_message] returns is words with one space between
    them and no white space around them, and putting it through
    [' '.join(p.split())] again gives it back. *)
Theorem extract_prompt_normal_form (text bot_user_id p : string) :
  extract_prompt_from_message text bot_user_id = Some p ->
  normalized p = true /\ join " " (split p) = p.
Proof.
  intros H. destruct (extract_prompt_joined _ _ _ H) as (ws & Hws & ->).
  split; [by apply join_words_normalized|by rewrite split_join_words].
Qed.

Lemma extract_prompt_normal_form_U123 :
  normalized "draw me as a kid" = true
  /\ join " " (split "draw me as a kid") = "draw me as a kid".
Proof.
  apply (extract_prompt_normal_form "  <@U123>   draw me as a kid  " "U123").
  reflexivity.
Defined.

(** X2: the prompt is never longer than the text it is taken from. *)
Theorem extract_prompt_not_longer (text bot_user_id p : string) :
  extract_prompt_from_message text bot_user_id = Some p ->
  String.length p <= String.length text.
Proof.
  unfold extract_prompt_from_message.
  destruct (compile _) as [pc|]; [|discriminate].
  rewrite strip_join_split_id. intros [= <-].
  pose proof (length_join_split (sub_empty pc text)).
  pose proof (length_sub_empty_from pc 0 text). unfold sub_empty in *. lia.
Qed.

Lemma extract_prompt_not_longer_U123 :
  String.length "draw me as a kid"
  <= String.length "  <@U123>   draw me as a kid  ".
Proof.
  apply (extract_prompt_not_longer "  <@U123>   draw me as a kid  " "U123").
  reflexivity.
Defined.

(** X3: for an identifier without pattern characters the prompt is empty
    exactly when nothing but white space is left of the text once the
    mentions of the bot are deleted. *)
Theorem extract_prompt_empty_iff (text bot_user_id : string) :
  plain bot_user_id = true ->
  (extract_prompt_from_message text bot_user_id = Some ""
   <-> lstrip (remove_token (mention_token bot_user_id) text) = "").
Proof.
  intros Hplain. rewrite (extract_prompt_literal _ _ Hplain).
  unfold trim, strip. rewrite lstrip_collapse_ws.
  destruct (lstrip_head (remove_token (mention_token bot_user_id) text))
    as [->|(d & t & -> & Hd)]; [done|].
  rewrite collapse_ws_word, rstrip_cons_word by done.
  split; [intros [=]|discriminate].
Qed.

Lemma extract_prompt_empty_iff_U123 :
  extract_prompt_from_message " <@U123>  <@U123> " "U123" = Some "".
Proof.
  apply (extract_prompt_empty_iff " <@U123>  <@U123> " "U123"); reflexivity.
Defined.

Lemma remove_from_without_lt (tok w : string) :
  no_lt w = true -> remove_from (String "<" tok) 0 w = w.
Proof.
  induction w as [|a w IH]; intros Hw; [reflexivity|].
  cbn [no_lt] in Hw. apply andb_true_iff in Hw as [Ha Hw].
  apply negb_true_iff in Ha. cbn [remove_from startswith]. rewrite Ha.
  cbn [andb]. by rewrite IH.
Qed.

(** X4: a text with no [<] in it mentions nobody: for an identifier without
    pattern characters the prompt is the words of the text with one space
    between them. *)
Theorem extract_prompt_without_mention (text bot_user_id : string) :
  plain bot_user_id = true -> no_lt text = true ->
  extract_prompt_from_message text bot_user_id = Some (join " " (split text)).
Proof.
  intros Hplain Hlt. unfold extract_prompt_from_message.
  fold (mention_token bot_user_id).
  rewrite (compile_plain _ (plain_mention_token _ Hplain)).
  unfold sub_empty. rewrite sub_empty_from_literal by done.
  unfold mention_token.
  change ("<@" +:+ bot_user_id +:+ ">")
    with (String "<" ("@" +:+ bot_user_id +:+ ">")).
  by rewrite remove_from_without_lt, strip_join_split_id.
Qed.

Lemma extract_prompt_without_mention_sample :
  extract_prompt_from_message " my  2-year-old self " "U123"
  = Some "my 2-year-old self".
Proof.
  apply (extract_prompt_without_mention " my  2-year-old self " "U123");
    reflexivity.
Defined.

(** ** The age in the enhanced prompt *)

Lemma age_unfold (user_prompt : string) :
  age user_prompt = default "5" (first_age_phrase (lower user_prompt)).
Proof.
  unfold age. rewrite <- search_age_pattern.
  by destruct (search age_pattern (lower user_prompt)).
Qed.

(** X5: the age put into the enhanced prompt is always a number: one or
    more digits. *)
Theorem age_is_a_number (user_prompt : string) :
  age user_prompt <> "" /\ digits (age user_prompt) = true.
Proof.
  rewrite age_unfold.
  destruct (first_age_phrase (lower user_prompt)) as [ds|] eqn:H; [|done].
  destruct (first_age_phrase_leftmost _ _ H) as (pre & t & _ & Ht & _).
  apply age_phrase_iff in Ht as (Hne & Hd & _). done.
Qed.

Lemma isdigit_lower_char (c : ascii) : isdigit (lower_char c) = isdigit c.
Proof. destruct c as [[] [] [] [] [] [] [] []]; reflexivity. Qed.

Lemma no_digit_lower (s : string) : no_digit (lower s) = no_digit s.
Proof.
  induction s as [|c s IH]; [reflexivity|].
  cbn [lower no_digit]. by rewrite isdigit_lower_char, IH.
Qed.

Lemma age_phrase_no_digit (c : ascii) (s : string) :
  isdigit c = false -> age_phrase (String c s) = None.
Proof. intros H. unfold age_phrase. cbn [span_digits]. by rewrite H. Qed.

Lemma first_age_phrase_skip (pre t : string) :
  no_digit pre = true ->
  first_age_phrase (pre +:+ t) = first_age_phrase t.
Proof.
  induction pre as [|c pre IH]; intros H; [reflexivity|].
  cbn [no_digit] in H. apply andb_true_iff in H as [Hc H].
  apply negb_true_iff in Hc. rewrite append_cons. cbn [first_age_phrase].
  rewrite (age_phrase_no_digit _ _ Hc). by apply IH.
Qed.

(** X6: a prompt with no digit in it gets the age 5. *)
Theorem age_without_digits (user_prompt : string) :
  no_digit user_prompt = true -> age user_prompt = "5".
Proof.
  intros H. rewrite age_unfold. rewrite <- no_digit_lower in H.
  rewrite <- (append_empty_r (lower user_prompt)).
  by rewrite first_age_phrase_skip.
Qed.

Lemma age_without_digits_sample : age "Just me at a park" = "5".
Proof. apply (age_without_digits "Just me at a park"). reflexivity. Defined.

(** X7: when the first digit of the lower-cased prompt starts an age
    phrase, the number of that phrase is the age, whatever comes later. *)
Theorem age_of_first_digits (user_prompt pre t ds : string) :
  lower user_prompt = pre +:+ t ->
  no_digit pre = true ->
  age_phrase t = Some ds ->
  age user_prompt = ds.
Proof.
  intros Hlow Hpre Ht. rewrite age_unfold, Hlow, first_age_phrase_skip by done.
  destruct t as [|c t]; cbn [first_age_phrase]; by rewrite Ht.
Qed.

Lemma age_of_first_digits_sample :
  age "My 7-Year-Old self, not the 30 year old one" = "7".
Proof.
  apply (age_of_first_digits "My 7-Year-Old self, not the 30 year old one"
           "my " "7-year-old self, not the 30 year old one" "7");
    reflexivity.
Defined.

Lemma contains_app_r (x pre s : string) :
  contains x s = true -> contains x (pre +:+ s) = true.
Proof.
  intros H. induction pre as [|c pre IH]; [done|].
  rewrite append_cons. by apply contains_cons.
Qed.

Lemma startswith_app_same (u v w : string) :
  startswith (u +:+ v) (u +:+ w) = startswith v w.
Proof.
  induction u as [|c u IH]; [reflexivity|].
  rewrite !append_cons. cbn [startswith]. by rewrite Ascii.eqb_refl.
Qed.

(** X8: the enhanced prompt holds the user's prompt as it was written, the
    trigger word, and the age with [-year-old child] after it. *)
Theorem enhance_prompt_keeps_prompt (cfg : config) (user_prompt : string) :
  contains user_prompt (enhance_prompt cfg user_prompt) = true
  /\ contains (TRIGGER_WORD cfg) (enhance_prompt cfg user_prompt) = true
  /\ contains (age user_prompt +:+ "-year-old child")
       (enhance_prompt cfg user_prompt) = true.
Proof.
  unfold enhance_prompt. split; [|split].
  - do 5 apply contains_app_r. apply contains_startswith, startswith_app.
  - apply contains_app_r, contains_startswith, startswith_app.
  - do 3 apply contains_app_r. apply contains_startswith.
    rewrite startswith_app_same. reflexivity.
Qed.

(** ** A dispatched unit, stage by stage *)

Lemma process_returns (cfg : config) (E : env) (channel thread_ts : json)
    (user_prompt : string) (t : list effect) :
  process_steps cfg E channel thread_ts user_prompt = (t, inr tt) ->
  process_image_request cfg E channel thread_ts user_prompt = (t, inr tt).
Proof.
  intros H. unfold process_image_request, try_except. by rewrite H.
Qed.

(** The [try] block after the working-on-it post, for each way the three
    other calls can answer. *)
Lemma process_steps_cases (cfg : config) (E : env) (channel thread_ts : json)
    (user_prompt : string) :
  post_returns E channel thread_ts TextCreating = true ->
  exists n url image_bytes,
    let calls := unit_calls cfg channel thread_ts user_prompt url image_bytes in
    stages_passed cfg E channel thread_ts user_prompt url image_bytes n
    /\ ((n = 4
         /\ snd (upload_image_to_slack E channel thread_ts image_bytes
                   user_prompt) = inr tt
         /\ process_steps cfg E channel thread_ts user_prompt
            = (calls, inr tt))
        \/ exists e,
             stage_raises cfg E channel thread_ts user_prompt url image_bytes
               n e
             /\ process_steps cfg E channel thread_ts user_prompt
                = (take n calls, inl e)).
Proof.
  intros Hack. unfold process_steps, stages_passed, stage_raises.
  rewrite (send_slack_message_returns _ _ _ _ Hack).
  unfold generate_image, download_image, unit_calls, bind, emit, ret, raise,
    lift.
  destruct (replicate_run E _ _) as [e|out] eqn:Hrun.
  { exists 2, "", []. split; [repeat split; (done || lia)|].
    right. exists e. by split. }
  destruct (output_url out) as [e|url] eqn:Hurl.
  { exists 2, "", []. split; [repeat split; (done || lia)|].
    right. exists e. by split. }
  destruct (requests_get E url) as [e|image_bytes] eqn:Hget.
  { exists 3, url, []. split; [repeat split; try (done || lia); by exists out|].
    right. exists e. by split. }
  cbv beta iota.
  rewrite (upload_image_to_slack_pair E channel thread_ts image_bytes).
  exists 4, url, image_bytes.
  split; [repeat split; try (done || lia); by exists out|].
  destruct (snd (upload_image_to_slack E channel thread_ts image_bytes
                   user_prompt)) as [e|[]].
  - right. exists e. by split.
  - left. by repeat split.
Qed.

(** X9: when every stage answers, the unit posts the working-on-it text,
    calls the model once with the enhanced prompt, downloads the URL that
    came out of the result, uploads exactly the bytes downloaded, with the
    prompt as the user wrote it, to the same channel and thread, posts no
    failure text and returns. *)
Theorem unit_success (cfg : config) (E : env) (channel thread_ts : json)
    (user_prompt : string) (out : output) (url : string)
    (image_bytes : list Byte.byte) :
  post_returns E channel thread_ts TextCreating = true ->
  replicate_run E (REPLICATE_MODEL cfg)
    (build_input cfg (enhance_prompt cfg user_prompt)) = inr out ->
  output_url out = inr url ->
  requests_get E url = inr image_bytes ->
  files_upload_v2 E channel thread_ts image_bytes user_prompt = None ->
  process_image_request cfg E channel thread_ts user_prompt
  = (unit_calls cfg channel thread_ts user_prompt url image_bytes, inr tt).
Proof.
  intros Hack Hrun Hurl Hget Hup. apply process_returns.
  unfold process_steps. rewrite (send_slack_message_returns _ _ _ _ Hack).
  unfold generate_image, download_image, upload_image_to_slack, unit_calls,
    bind, emit, ret, raise, lift.
  by rewrite Hrun, Hurl, Hget, Hup.
Qed.

Lemma unit_success_sample :
  process_image_request sample_config calm_env (JStr "C1") (JStr "T1")
    "3 year old at the beach"
  = (unit_calls sample_config (JStr "C1") (JStr "T1")
       "3 year old at the beach" "https://replicate.delivery/out-0.webp"
       [Byte.x52; Byte.x49; Byte.x46; Byte.x46],
     inr tt).
Proof.
  apply (unit_success sample_config calm_env (JStr "C1") (JStr "T1")
           "3 year old at the beach"
           (OutList [PObj (Some "https://replicate.delivery/out-0.webp")
                       "https://replicate.delivery/out-0.webp"]));
    reflexivity.
Defined.

(** X10: in every environment the calls of a unit are the first [n] of:
    post the working-on-it text, call the model, download, upload, in that
    order and each once, where a call is made only when the one before it
    has answered: the URL downloaded is the one the result of the model
    stands for, and the bytes uploaded are the ones downloaded from it.
    Either all four are made, the upload returns and so does the unit, or
    call [n] raises and one post of the failure text, with the text of that
    exception, is all that follows. *)
Theorem unit_trace_shape (cfg : config) (E : env) (channel thread_ts : json)
    (user_prompt : string) :
  exists n url image_bytes,
    let calls := unit_calls cfg channel thread_ts user_prompt url image_bytes in
    let r := process_image_request cfg E channel thread_ts user_prompt in
    stages_passed cfg E channel thread_ts user_prompt url image_bytes n
    /\ ((n = 4
         /\ snd (upload_image_to_slack E channel thread_ts image_bytes
                   user_prompt) = inr tt
         /\ r = (calls, inr tt))
        \/ exists e,
             stage_raises cfg E channel thread_ts user_prompt url image_bytes
               n e
             /\ fst r = take n calls ++ [failure_post channel thread_ts e]).
Proof.
  destruct (post_returns E channel thread_ts TextCreating) eqn:Hack.
  - destruct (process_steps_cases cfg E channel thread_ts user_prompt Hack)
      as (n & url & image_bytes & Hpassed & [(Hn & Hup & Hok)|(e & He & Hfail)]);
      exists n, url, image_bytes; cbv zeta; (split; [done|]).
    + left. repeat split; [done|done|]. by apply process_returns.
    + right. exists e. split; [done|].
      by rewrite (process_boundary _ _ _ _ _ _ _ Hfail).
  - destruct (snd (send_slack_message E channel thread_ts TextCreating))
      as [e|[]] eqn:Hsend;
      [|apply post_returns_spec in Hsend; congruence].
    exists 1, "", []. cbv zeta. split.
    { unfold stages_passed. repeat split; lia. }
    right. exists e. split; [exact Hsend|].
    assert (process_steps cfg E channel thread_ts user_prompt
            = ([CallPostMessage channel thread_ts TextCreating], inl e))
      as Hsteps.
    { unfold process_steps. rewrite send_slack_message_pair, Hsend.
      reflexivity. }
    by rewrite (process_boundary _ _ _ _ _ _ _ Hsteps).
Qed.

(** X11: the post of the working-on-it text comes first, before the model
    is called.  When [send_slack_message] returns from it (the call
    returned, or raised a [SlackApiError] whose response error could be
    printed) the model is called next; when it raises, the unit ends before
    the model is called, and that exception is reported like the failure of
    a stage. *)
Theorem unit_ack_first (cfg : config) (E : env) (channel thread_ts : json)
    (user_prompt : string) :
  let ack := CallPostMessage channel thread_ts TextCreating in
  let run := CallReplicate (REPLICATE_MODEL cfg)
               (build_input cfg (enhance_prompt cfg user_prompt)) in
  let r := process_image_request cfg E channel thread_ts user_prompt in
  (post_returns E channel thread_ts TextCreating = true ->
   exists rest, fst r = ack :: run :: rest)
  /\ (forall e,
        snd (send_slack_message E channel thread_ts TextCreating) = inl e ->
        fst r = [ack; failure_post channel thread_ts e]).
Proof.
  cbv zeta. split.
  - intros Hack.
    destruct (process_steps_cases cfg E channel thread_ts user_prompt Hack)
      as (n & url & image_bytes & _ & [(Hn & _ & Hok)|(e & He & Hfail)]).
    + rewrite (process_returns _ _ _ _ _ _ Hok). by eexists.
    + rewrite (process_boundary _ _ _ _ _ _ _ Hfail). cbn [fst].
      unfold stage_raises in He.
      destruct n as [|[|[|[|[|n]]]]]; try done.
      * apply post_returns_spec in Hack. congruence.
      * by eexists.
      * by eexists.
      * by eexists.
  - intros e Hsend.
    assert (process_steps cfg E channel thread_ts user_prompt
            = ([CallPostMessage channel thread_ts TextCreating], inl e))
      as Hsteps.
    { unfold process_steps. rewrite send_slack_message_pair, Hsend.
      reflexivity. }
    by rewrite (process_boundary _ _ _ _ _ _ _ Hsteps).
Qed.

Lemma unit_ack_first_offline :
  fst (process_image_request sample_config offline_env (JStr "C1")
         (JStr "T1") "3 year old at the beach")
  = [CallPostMessage (JStr "C1") (JStr "T1") TextCreating;
     CallPostMessage (JStr "C1") (JStr "T1")
       (TextFailure "URLError: connection refused")].
Proof.
  apply (proj2 (unit_ack_first sample_config offline_env (JStr "C1")
                  (JStr "T1") "3 year old at the beach")
           (PyExc OtherException "URLError: connection refused")).
  reflexivity.
Defined.

(** X12: as long as [send_slack_message] returns from every post (the call
    returns, or raises a [SlackApiError] whose response error can be
    printed), no exception leaves [process_image_request], whatever the
    model, the download and the upload do. *)
Theorem unit_never_raises (cfg : config) (E : env) (channel thread_ts : json)
    (user_prompt : string) :
  (forall text, post_returns E channel thread_ts text = true) ->
  snd (process_image_request cfg E channel thread_ts user_prompt) = inr tt.
Proof.
  intros Hpost.
  destruct (process_steps cfg E channel thread_ts user_prompt)
    as [t [e|[]]] eqn:Hsteps.
  - rewrite (process_boundary _ _ _ _ _ _ _ Hsteps). cbn [snd].
    apply post_returns_spec, Hpost.
  - by rewrite (process_returns _ _ _ _ _ _ Hsteps).
Qed.

Lemma unit_never_raises_sample :
  snd (process_image_request sample_config failing_env (JStr "C1")
         (JStr "T1") "3 year old at the beach") = inr tt.
Proof.
  apply (unit_never_raises sample_config failing_env (JStr "C1") (JStr "T1")).
  intros text. reflexivity.
Defined.

(** ** The view and the set of processed events *)

(** X13: right after [mark], [seen] answers yes for the same id, except
    when that very insert took the set over 1000 entries and emptied it. *)
Theorem seen_after_mark (event_id : pykey) (s : gset pykey) :
  seen event_id (mark event_id s) = true <-> size (add_event event_id s) <= 1000.
Proof.
  destruct (decide (size (add_event event_id s) <= 1000)) as [Hle|Hgt].
  - split; [done|]. intros _. rewrite mark_keeps by done.
    apply seen_true. unfold add_event. set_solver.
  - split; [|lia]. rewrite mark_clears by lia.
    intros H. apply seen_true in H. set_solver.
Qed.

Lemma seen_after_mark_E1 : seen (KStr "E1") (mark (KStr "E1") ∅) = true.
Proof.
  apply (seen_after_mark (KStr "E1") ∅).
  rewrite size_add_event_fresh by apply not_elem_of_empty.
  rewrite size_empty. lia.
Defined.

Lemma size_mark (key : pykey) (s : gset pykey) : size (mark key s) <= 1000.
Proof. unfold mark. apply size_cleanup. Qed.

(** The set after a request: as before, or with the id of the request
    marked. *)
Lemma slack_events_set (E : env) (data : json) (s : gset pykey) :
  o_processed_events (slack_events E data s) = s
  \/ exists key, o_processed_events (slack_events E data s) = mark key s.
Proof.
  unfold slack_events. destruct data; try by left.
  destruct (eq_str _ _); [by left|].
  destruct (eq_str _ _); [|by left].
  destruct (hashable _) as [key|]; [|by left].
  destruct (seen key s); [by left|].
  right. exists key. apply handle_event_set.
Qed.

(** X14: the set of processed events never holds more than 1000 ids between
    two requests, whatever the requests are and however they end. *)
Theorem processed_events_bounded (E : env) (requests : list json)
    (s : gset pykey) :
  size s <= 1000 ->
  Forall (fun o => size (o_processed_events o) <= 1000) (serve E requests s).
Proof.
  revert s. induction requests as [|data requests IH]; intros s Hs;
    cbn [serve]; [constructor|].
  assert (size (o_processed_events (slack_events E data s)) <= 1000) as Hnext.
  { destruct (slack_events_set E data s) as [->|[key ->]];
      [done|apply size_mark]. }
  constructor; [done|by apply IH].
Qed.

Lemma processed_events_bounded_sample :
  Forall (fun o => size (o_processed_events o) <= 1000)
    (serve calm_env [JObj replayed_body; JArr []; JObj null_event_body] ∅).
Proof.
  apply (processed_events_bounded calm_env). rewrite size_empty. lia.
Defined.

(** [handle_event] answers and acts the same on every set. *)
Lemma handle_event_any_set (E : env) (event : json) (s : gset pykey) :
  handle_event E event s
  = Outcome (o_result (handle_event E event ∅)) s
      (o_trace (handle_event E event ∅)).
Proof.
  unfold handle_event. destruct event; try reflexivity.
  destruct (eq_str _ _); [|reflexivity].
  destruct (get_or fields "text" (JStr ""));
    try (destruct (compile _); reflexivity).
  destruct (extract_prompt_from_message _ _) as [p|]; [|reflexivity].
  destruct (String.eqb p ""); [|reflexivity].
  unfold send_slack_message, print_response_error, finish, bind, emit, ret,
    raise.
  destruct (chat_postMessage _ _ _ _) as [e|]; [|reflexivity].
  destruct (is_slack_api_error e); [|reflexivity].
  destruct (response_error E e); reflexivity.
Qed.

(** Closes the three statements below for a trace without
    [ThreadStart]. *)
Ltac no_thread_start :=
  split; [reflexivity|split; [simpl; lia|]];
  intros ? ? ? Hin; simpl in Hin;
  repeat (destruct Hin as [Hin|Hin]; [discriminate Hin|]);
  destruct Hin.

(** What [handle_event] may do, and what it starts a thread with. *)
Lemma handle_event_trace (E : env) (event : json) (s : gset pykey) :
  forallb receiver_effect (o_trace (handle_event E event s)) = true
  /\ List.length (List.filter is_thread_start (o_trace (handle_event E event s)))
     <= 1
  /\ forall channel thread_ts user_prompt,
       List.In (ThreadStart channel thread_ts user_prompt)
         (o_trace (handle_event E event s)) ->
       user_prompt <> "" /\ normalized user_prompt = true.
Proof.
  unfold handle_event. destruct event as [| | | | |ev]; try no_thread_start.
  destruct (eq_str _ _); [|no_thread_start].
  destruct (get_or ev "text" (JStr "")) as [| | |text| |];
    try (destruct (compile _); no_thread_start).
  destruct (extract_prompt_from_message text (resolve_bot_user_id E))
    as [p|] eqn:Hp; [|no_thread_start].
  destruct (String.eqb p "") eqn:Hempty.
  - unfold send_slack_message, print_response_error, finish, bind, emit, ret,
      raise.
    destruct (chat_postMessage _ _ _ _) as [e|];
      [destruct (is_slack_api_error e); [destruct (response_error E e)|]|];
      no_thread_start.
  - split; [reflexivity|split; [simpl; lia|]].
    intros channel thread_ts user_prompt [H|[H|[]]]; [discriminate|].
    injection H as _ _ <-. split; [by apply String.eqb_neq in Hempty|].
    destruct (extract_prompt_joined _ _ _ Hp) as (ws & Hws & ->).
    by apply join_words_normalized.
Qed.

Lemma slack_events_trace_cases (E : env) (data : json) (s : gset pykey) :
  o_trace (slack_events E data s) = []
  \/ exists event s', o_trace (slack_events E data s)
                      = o_trace (handle_event E event s').
Proof.
  unfold slack_events. destruct data; try by left.
  destruct (eq_str _ _); [by left|].
  destruct (eq_str _ _); [|by left].
  destruct (hashable _) as [key|]; [|by left].
  destruct (seen key s); [by left|].
  right. by eexists _, _.
Qed.

(** X15: the view itself never calls the model, never downloads or uploads
    anything and never posts the working-on-it or the failure text: all it
    may do is ask who the bot is, post the usage text and start a thread. *)
Theorem receiver_effects_only (E : env) (data : json) (s : gset pykey) :
  forallb receiver_effect (o_trace (slack_events E data s)) = true.
Proof.
  destruct (slack_events_trace_cases E data s) as [->|(event & s' & ->)];
    [reflexivity|apply handle_event_trace].
Qed.

(** X16: a request starts at most one thread, and never with an empty
    prompt: the prompt handed to [process_image_request] is words with one
    space between them. *)
Theorem dispatched_prompt_not_empty (E : env) (data : json) (s : gset pykey) :
  List.length (List.filter is_thread_start (o_trace (slack_events E data s)))
  <= 1
  /\ forall channel thread_ts user_prompt,
       List.In (ThreadStart channel thread_ts user_prompt)
         (o_trace (slack_events E data s)) ->
       user_prompt <> "" /\ normalized user_prompt = true.
Proof.
  destruct (slack_events_trace_cases E data s) as [->|(event & s' & ->)].
  - split; [simpl; lia|intros ? ? ? []].
  - apply handle_event_trace.
Qed.

Lemma dispatched_prompt_not_empty_E1 :
  "3 year old at the beach" <> ""
  /\ normalized "3 year old at the beach" = true.
Proof.
  apply (proj2 (dispatched_prompt_not_empty calm_env (JObj replayed_body) ∅)
           (JStr "C1") (JStr "T1")).
  right. left. reflexivity.
Defined.

Lemma callback_with_id_spec (key : pykey) (data : json) :
  callback_with_id key data = true ->
  exists top, data = JObj top
    /\ eq_str (get top "type") "event_callback" = true
    /\ hashable (get top "event_id") = Some key.
Proof.
  destruct data as [| | | | |top]; try discriminate. cbn [callback_with_id].
  intros H. apply andb_true_iff in H as [Htype Hkey].
  apply bool_decide_eq_true in Hkey. by exists top.
Qed.

(** While the id is in the set, requests under it do nothing. *)
Lemma duplicates_silent (E : env) (key : pykey) (requests : list json)
    (s : gset pykey) :
  key ∈ s ->
  Forall (fun data => callback_with_id key data = true) requests ->
  traces (serve E requests s) = [].
Proof.
  intros Hin Hall. induction Hall as [|data requests Hdata _ IH];
    [reflexivity|].
  destruct (callback_with_id_spec _ _ Hdata) as (top & -> & Htype & Hkey).
  cbn [serve]. rewrite (slack_events_duplicate E top s key Htype Hkey Hin).
  cbn [o_processed_events]. unfold traces in *. cbn [map concat o_trace].
  by rewrite IH.
Qed.

(** X17: below the cap, however often an event is delivered, at most one
    thread is started for its id. *)
Theorem one_dispatch_per_id (E : env) (key : pykey) (requests : list json)
    (s : gset pykey) :
  size s < 1000 ->
  Forall (fun data => callback_with_id key data = true) requests ->
  List.length (List.filter is_thread_start (traces (serve E requests s))) <= 1.
Proof.
  intros Hsize Hall. destruct (decide (key ∈ s)) as [Hin|Hnew].
  - rewrite (duplicates_silent E key requests s Hin Hall). simpl. lia.
  - destruct Hall as [|data requests Hdata Hall]; [simpl; lia|].
    destruct (callback_with_id_spec _ _ Hdata) as (top & -> & Htype & Hkey).
    cbn [serve]. rewrite (slack_events_fresh E top s key Htype Hkey Hnew).
    rewrite handle_event_set. unfold traces. cbn [map concat].
    fold (traces (serve E requests (mark key s))).
    rewrite (duplicates_silent E key requests (mark key s));
      [|by apply mark_records|done].
    rewrite app_nil_r. apply handle_event_trace.
Qed.

Lemma one_dispatch_per_id_E1 :
  List.length
    (List.filter is_thread_start
       (traces (serve calm_env
                  [JObj replayed_body; JObj replayed_body; JObj replayed_body]
                  ∅))) <= 1.
Proof.
  apply (one_dispatch_per_id calm_env (KStr "E1")).
  - rewrite size_empty. lia.
  - repeat constructor.
Defined.

(** X18: a new mention with a prompt in it is answered with the plain
    acknowledgment, after [auth.test] and the start of one thread for the
    channel of the event, its [thread_ts] or else its [ts], and the prompt;
    nothing is posted by the view. *)
Theorem mention_dispatched (E : env) (top ev : list (string * json))
    (s : gset pykey) (key : pykey) (text bot_user_id : string) :
  eq_str (get top "type") "event_callback" = true ->
  hashable (get top "event_id") = Some key ->
  key ∉ s ->
  get_or top "event" (JObj []) = JObj ev ->
  eq_str (get ev "type") "app_mention" = true ->
  get_or ev "text" (JStr "") = JStr text ->
  auth_test E = inr bot_user_id ->
  plain bot_user_id = true ->
  prompt_of text bot_user_id <> "" ->
  slack_events E (JObj top) s
  = Outcome (Responded status_ok) (mark key s)
      [CallAuthTest;
       ThreadStart (get ev "channel")
         (py_or (get ev "thread_ts") (get ev "ts"))
         (prompt_of text bot_user_id)].
Proof.
  intros Htype Hkey Hnew Hev Hmention Htext Hauth Hplain Hne.
  rewrite (slack_events_fresh E top s key Htype Hkey Hnew), Hev.
  unfold handle_event, resolve_bot_user_id.
  rewrite Hmention, Htext, Hauth, (extract_prompt_literal _ _ Hplain).
  fold (prompt_of text bot_user_id). by rewrite (eqb_empty_false _ Hne).
Qed.

Lemma mention_dispatched_E1 :
  slack_events calm_env (JObj replayed_body) ∅
  = Outcome (Responded status_ok) (mark (KStr "E1") ∅)
      [CallAuthTest;
       ThreadStart (JStr "C1") (JStr "T1") "3 year old at the beach"].
Proof.
  apply (mention_dispatched calm_env replayed_body replayed_event ∅
           (KStr "E1") "<@U123> 3 year old at the beach" "U123");
    try reflexivity.
  - apply not_elem_of_empty.
  - discriminate.
Defined.

(** X19: the id of an event callback is marked before the event is looked
    at: when the event is not an object the request ends in an exception,
    and the same request delivered again is answered as a duplicate. *)
Theorem malformed_event_marked (E : env) (top : list (string * json))
    (s : gset pykey) (key : pykey) :
  eq_str (get top "type") "event_callback" = true ->
  hashable (get top "event_id") = Some key ->
  key ∉ s ->
  size s < 1000 ->
  match get_or top "event" (JObj []) with JObj _ => False | _ => True end ->
  serve E [JObj top; JObj top] s
  = [Outcome (Raised no_attribute_get) (mark key s) [];
     Outcome (Responded status_ok) (mark key s) []].
Proof.
  intros Htype Hkey Hnew Hsize Hev. cbn [serve].
  rewrite (slack_events_fresh E top s key Htype Hkey Hnew).
  assert (handle_event E (get_or top "event" (JObj [])) (mark key s)
          = Outcome (Raised no_attribute_get) (mark key s) []) as ->.
  { unfold handle_event. by destruct (get_or top "event" (JObj [])). }
  cbn [o_processed_events].
  rewrite (slack_events_duplicate E top (mark key s) key Htype Hkey);
    [reflexivity|by apply mark_records].
Qed.

Lemma malformed_event_marked_sample :
  serve calm_env [JObj null_event_body; JObj null_event_body] ∅
  = [Outcome (Raised no_attribute_get) (mark (KStr "E3") ∅) [];
     Outcome (Responded status_ok) (mark (KStr "E3") ∅) []].
Proof.
  apply (malformed_event_marked calm_env null_event_body ∅ (KStr "E3"));
    first [ reflexivity | apply not_elem_of_empty
          | rewrite size_empty; lia | exact I ].
Defined.

Lemma mark_empty (key : pykey) : mark key ∅ = {[ key ]}.
Proof.
  pose proof (size_mark_empty key) as Hsize.
  unfold mark, cleanup in *. case_decide as Hdec.
  - rewrite size_empty in Hsize. lia.
  - unfold add_event. set_solver.
Qed.

(** X20: the insert that takes the set over 1000 ids forgets its own id
    with the rest: when the set holds 1000 ids and a new event comes in, the
    set is empty after the request, and the same request delivered again is
    handled a second time, with the same answer and the same calls. *)
Theorem replay_after_reset (E : env) (top : list (string * json))
    (s : gset pykey) (key : pykey) :
  eq_str (get top "type") "event_callback" = true ->
  hashable (get top "event_id") = Some key ->
  key ∉ s ->
  size s = 1000 ->
  exists o1 o2,
    serve E [JObj top; JObj top] s = [o1; o2]
    /\ o1 = handle_event E (get_or top "event" (JObj [])) ∅
    /\ o_result o2 = o_result o1
    /\ o_trace o2 = o_trace o1
    /\ o_processed_events o2 = {[ key ]}.
Proof.
  intros Htype Hkey Hnew Hsize. cbn [serve].
  rewrite (slack_events_fresh E top s key Htype Hkey Hnew).
  rewrite (mark_clears key s)
    by (rewrite size_add_event_fresh by done; lia).
  rewrite handle_event_set.
  rewrite (slack_events_fresh E top ∅ key Htype Hkey)
    by apply not_elem_of_empty.
  rewrite mark_empty.
  eexists _, _. split; [reflexivity|]. split; [reflexivity|].
  rewrite (handle_event_any_set E _ {[ key ]}). by repeat split.
Qed.

Lemma sample_id_inj : Inj (=) (=) sample_id.
Proof.
  intros m n Hmn. unfold sample_id in Hmn.
  injection Hmn as Hmn. by apply (inj pretty).
Qed.

Lemma full_set_size : size full_set = 1000.
Proof.
  unfold full_set. rewrite size_list_to_set.
  - rewrite length_fmap. apply length_seq.
  - pose proof sample_id_inj as Hinj.
    apply (NoDup_fmap_2 sample_id), NoDup_seq.
Qed.

Lemma full_set_fresh : sample_id 1000 ∉ full_set.
Proof.
  unfold full_set. rewrite elem_of_list_to_set, list_elem_of_fmap.
  intros (n & Heq & Hn). apply sample_id_inj in Heq. subst n.
  apply elem_of_seq in Hn. lia.
Qed.

Lemma replay_after_reset_sample :
  exists o1 o2,
    serve calm_env [JObj overflow_body; JObj overflow_body] full_set = [o1; o2]
    /\ o1 = handle_event calm_env (get_or overflow_body "event" (JObj [])) ∅
    /\ o_result o2 = o_result o1
    /\ o_trace o2 = o_trace o1
    /\ o_processed_events o2 = {[ sample_id 1000 ]}.
Proof.
  apply (replay_after_reset calm_env overflow_body full_set (sample_id 1000)).
  - reflexivity.
  - reflexivity.
  - exact full_set_fresh.
  - exact full_set_size.
Defined.

(** X21: ids are remembered whatever the type of the event: a new event
    callback whose event is an object of a type other than [app_mention] is
    answered with the plain acknowledgment without a single call, and below
    the cap any later event callback under the same id, a mention too, is
    dropped as a duplicate. *)
Theorem other_event_types_marked (E : env) (top ev top' : list (string * json))
    (s : gset pykey) (key : pykey) :
  eq_str (get top "type") "event_callback" = true ->
  hashable (get top "event_id") = Some key ->
  key ∉ s ->
  size s < 1000 ->
  get_or top "event" (JObj []) = JObj ev ->
  eq_str (get ev "type") "app_mention" = false ->
  eq_str (get top' "type") "event_callback" = true ->
  hashable (get top' "event_id") = Some key ->
  serve E [JObj top; JObj top'] s
  = [Outcome (Responded status_ok) (mark key s) [];
     Outcome (Responded status_ok) (mark key s) []].
Proof.
  intros Htype Hkey Hnew Hsize Hev Hother Htype' Hkey'. cbn [serve].
  rewrite (slack_events_fresh E top s key Htype Hkey Hnew), Hev.
  unfold handle_event. rewrite Hother. cbn [o_processed_events].
  rewrite (slack_events_duplicate E top' (mark key s) key Htype' Hkey');
    [reflexivity|by apply mark_records].
Qed.

Lemma other_event_types_marked_sample :
  serve calm_env [JObj reaction_body; JObj replayed_body] ∅
  = [Outcome (Responded status_ok) (mark (KStr "E1") ∅) [];
     Outcome (Responded status_ok) (mark (KStr "E1") ∅) []].
Proof.
  apply (other_event_types_marked calm_env reaction_body
           [("type", JStr "reaction_added"); ("user", JStr "U999")]
           replayed_body ∅ (KStr "E1"));
    first [ reflexivity | apply not_elem_of_empty | rewrite size_empty; lia ].
Defined.
